(** * MetaheuristicDesigner: the individual, the objective function, the ES
      strategy and the masked operator combinator

    A shallow embedding of
      - [Individual.py]                          (class [Indiv]),
      - [Algorithms/ES.py]                       (class [ES]),
      - [pyevolcomp/Operators/OperatorSplit.py]  (class [OperatorSplit]),
      - [metaheuristic_designer/ObjectiveFunc.py] (class [ObjectiveFunc]).

    Python objects live in a heap addressed by references, so that two names
    for one object are two copies of one reference.  Exceptions are values of
    [Py.exn]; a method is a function from the world to a result and the world
    it leaves behind (what was written before an exception was raised stays
    written).  Numbers are integers: no property below depends on rounding.
    numpy arrays are lists, held by value in the object that owns them. *)

From Stdlib Require Import ZArith Lia.
From stdpp Require Import base list strings gmap pretty.

Local Open Scope Z_scope.

(** ** Python: exceptions, results, name lookup *)
Module Py.

Inductive exn : Type :=
| NameError (name : string)
| AttributeError (attr : string)
| ValueError (msg : string)
| IndexError (msg : string)
| TypeError (msg : string)
| SystemError (msg : string).

Inductive result (A : Type) : Type :=
| Ok (a : A)
| Raise (e : exn).
Arguments Ok {A} a.
Arguments Raise {A} e.

(** A computation over a world [W]: the world is threaded through, also past
    a raised exception. *)
Definition M (W A : Type) : Type := W -> result A * W.

Definition ret {W A} (a : A) : M W A := fun w => (Ok a, w).

Definition raise {W A} (e : exn) : M W A := fun w => (Raise e, w).

Definition bind {W A B} (c : M W A) (k : A -> M W B) : M W B :=
  fun w => match c w with
           | (Ok a, w') => k a w'
           | (Raise e, w') => (Raise e, w')
           end.

(** What a module-level name can be bound to.  [PValue] carries the data a
    module stores under a name ([X] is chosen by the module that is modelled). *)
Inductive pyobj (X : Type) : Type :=
| PModule (name : string)
| PClass (name : string)
| PFunction (name : string)
| PValue (x : X).
Arguments PModule {X} name.
Arguments PClass {X} name.
Arguments PFunction {X} name.
Arguments PValue {X} x.

(** LOAD_GLOBAL: a name that is not local to the function is looked up in the
    dictionary of the module the function was defined in; none of the names
    looked up below is a builtin. *)
Definition load_global {W X} (G : gmap string (pyobj X)) (name : string)
  : M W (pyobj X) :=
  match G !! name with
  | Some o => ret o
  | None => raise (NameError name)
  end.

(** A function run over a list, left to right. *)
Fixpoint mapM {W A B} (f : A -> M W B) (l : list A) : M W (list B) :=
  match l with
  | [] => ret []
  | x :: l' =>
      bind (f x) (fun y => bind (mapM f l') (fun ys => ret (y :: ys)))
  end.

(** The builtin [sorted(..., reverse=True, key=...)] on elements paired with
    their keys: descending keys, and (the sort being stable, also with
    [reverse=True]) elements with equal keys in their original order. *)
Fixpoint insert_reverse {A} (x : Z * A) (l : list (Z * A)) : list (Z * A) :=
  match l with
  | [] => [x]
  | y :: l' => if fst x <? fst y then y :: insert_reverse x l' else x :: y :: l'
  end.

Definition sorted_reverse {A} (keyed : list (Z * A)) : list A :=
  map snd (foldr insert_reverse [] keyed).

Definition lift {W A} (r : result A) : M W A := fun w => (r, w).

(** [str.lower()] on the letters A to Z (the method tags are ASCII). *)
Definition lower_ascii (c : Ascii.ascii) : Ascii.ascii :=
  let n := Ascii.nat_of_ascii c in
  if (65 <=? n)%nat && (n <=? 90)%nat then Ascii.ascii_of_nat (n + 32) else c.

Fixpoint lower (s : string) : string :=
  match s with
  | EmptyString => EmptyString
  | String c s' => String (lower_ascii c) (lower s')
  end.

End Py.

(** ** numpy: boolean-mask indexing and broadcasting on one axis *)
Module Np.

Import Py.

(** The entries of [a] where the mask holds. *)
Fixpoint select {A} (a : list A) (m : list bool) : list A :=
  match a, m with
  | x :: a', b :: m' => if b then x :: select a' m' else select a' m'
  | _, _ => []
  end.

(** [a] with the entries where the mask holds replaced, in order, by [v]. *)
Fixpoint scatter {A} (a : list A) (m : list bool) (v : list A) : list A :=
  match a, m with
  | x :: a', true :: m' =>
      match v with
      | y :: v' => y :: scatter a' m' v'
      | [] => x :: scatter a' m' []
      end
  | x :: a', false :: m' => x :: scatter a' m' v
  | _, _ => a
  end.

Definition count_nonzero (m : list bool) : nat := length (filter (fun b => b = true) m).

(** [a[m]]. *)
Definition getitem_mask {A} (a : list A) (m : list bool) : result (list A) :=
  if decide (length m = length a) then Ok (select a m)
  else Raise (IndexError "boolean index did not match indexed array").

(** [a[m] = v]: as many values as the mask selects, or one value for all. *)
Definition setitem_mask {A} (a : list A) (m : list bool) (v : list A)
  : result (list A) :=
  if decide (length m = length a) then
    if decide (length v = count_nonzero m) then Ok (scatter a m v)
    else match v with
         | [y] => Ok (scatter a m (replicate (count_nonzero m) y))
         | _ => Raise (ValueError "cannot assign the input values to the output values where the mask is true")
         end
  else Raise (IndexError "boolean index did not match indexed array").

(** [a[idx] = x] for an index from [enumerate]. *)
Definition setitem {A} (a : list A) (idx : nat) (x : A) : result (list A) :=
  if decide (idx < length a)%nat then Ok (<[idx := x]> a)
  else Raise (IndexError "index is out of bounds").

(** [a + b] for two arrays. *)
Definition add (a b : list Z) : result (list Z) :=
  if decide (length a = length b) then Ok (zip_with Z.add a b)
  else match a, b with
       | _, [c] => Ok (map (fun x => x + c) a)
       | [x], _ => Ok (map (fun c => x + c) b)
       | _, _ => Raise (ValueError "operands could not be broadcast together")
       end.

(** What a method written for one solution or for a batch may return. *)
Inductive operand : Type :=
| Scalar (c : Z)
| Array (p : list Z).

(** [a - b] for an array [a]. *)
Definition sub (a : list Z) (b : operand) : result (list Z) :=
  match b with
  | Scalar c => Ok (map (fun x => x - c) a)
  | Array p =>
      if decide (length a = length p) then Ok (zip_with Z.sub a p)
      else match a, p with
           | _, [c] => Ok (map (fun x => x - c) a)
           | [x], _ => Ok (map (fun c => x - c) p)
           | _, _ => Raise (ValueError "operands could not be broadcast together")
           end
  end.

End Np.

Import Py.

Notation "x <- c ;; k" := (bind c (fun x => k))
  (at level 100, c at next level, right associativity).
Notation "c ;;; k" := (bind c (fun _ => k))
  (at level 100, right associativity).

(** ** Individual.py *)
Module Individual.

(** An object reference; objective functions and operators are external
    objects, named by a handle. *)
Definition ref := nat.
Definition handle := nat.

(** The instance attributes [Indiv.__init__] creates. *)
Record Indiv : Type := mkIndiv {
  objfunc : handle;
  _genotype : list Z;
  speed : list Z;
  operator : option handle;
  _fitness : Z;
  fitness_calculated : bool;
  best : list Z;
  is_dead : bool
}.

Definition set__genotype (v : list Z) (i : Indiv) : Indiv :=
  mkIndiv (objfunc i) v (speed i) (operator i) (_fitness i)
          (fitness_calculated i) (best i) (is_dead i).

Definition set__fitness (f : Z) (i : Indiv) : Indiv :=
  mkIndiv (objfunc i) (_genotype i) (speed i) (operator i) f
          (fitness_calculated i) (best i) (is_dead i).

Definition set_fitness_calculated (b : bool) (i : Indiv) : Indiv :=
  mkIndiv (objfunc i) (_genotype i) (speed i) (operator i) (_fitness i)
          b (best i) (is_dead i).

Definition set_best (v : list Z) (i : Indiv) : Indiv :=
  mkIndiv (objfunc i) (_genotype i) (speed i) (operator i) (_fitness i)
          (fitness_calculated i) v (is_dead i).

(** The world: the heap of [Indiv] objects, the log of the individuals the
    objective function was invoked on (oldest first), and the state [E] of
    everything outside this module (the objective function's own attributes,
    the random generator, the operators' parameters). *)
Record World (E : Type) : Type := mkWorld {
  heap : list Indiv;
  calls : list ref;
  ext : E
}.
Arguments mkWorld {E} heap calls ext.
Arguments heap {E} w.
Arguments calls {E} w.
Arguments ext {E} w.

(** The collaborators of [Indiv], which this module only calls:
    - [objfunc_call h i e]: what [objfunc(indiv)] returns for the objective
      function [h], reading the individual and the external state;
    - [repair_solution h v]: [objfunc.repair_solution(v)];
    - [operator_call op self population objfunc]: [operator(self, population,
      objfunc)], free to change the world, returning a reference. *)
Class Externals (E : Type) : Type := {
  objfunc_call : handle -> Indiv -> E -> Z * E;
  repair_solution : handle -> list Z -> list Z;
  operator_call : handle -> ref -> list ref -> handle -> M (World E) ref
}.

(** The names bound at module level by Individual.py: its three imports and
    the class it defines.  numpy is not among them. *)
Definition module_globals : gmap string (pyobj (list Z)) :=
  {[ "annotations" := PValue [] ;
     "List" := PClass "typing.List" ;
     "copy" := PFunction "copy.copy" ;
     "Indiv" := PClass "Indiv" ]}.

Section Indiv.
Context {E : Type} `{Externals E}.
Variable G : gmap string (pyobj (list Z)).

Definition deref (r : ref) : M (World E) Indiv :=
  fun w => match heap w !! r with
           | Some i => (Ok i, w)
           | None => (Raise (SystemError "dangling reference"), w)
           end.

Definition setattr (r : ref) (f : Indiv -> Indiv) : M (World E) unit :=
  fun w => match heap w !! r with
           | Some i => (Ok tt, mkWorld (<[r := f i]> (heap w)) (calls w) (ext w))
           | None => (Raise (SystemError "dangling reference"), w)
           end.

Definition alloc (i : Indiv) : M (World E) ref :=
  fun w => (Ok (length (heap w)), mkWorld (heap w ++ [i]) (calls w) (ext w)).

(** [np.zeros_like(vector)], with [np] whatever the module binds it to. *)
Definition zeros_like (np : pyobj (list Z)) (vector : list Z)
  : M (World E) (list Z) :=
  match np with
  | PModule "numpy" => ret (replicate (length vector) 0)
  | _ => raise (AttributeError "zeros_like")
  end.

(** [Indiv.__init__]: [speed] and [operator] default to [None]. *)
Definition __init__ (objfunc : handle) (vector : list Z)
    (speed : option (list Z)) (operator : option handle) : M (World E) ref :=
  speed' <- match speed with
            | Some s => ret s
            | None => np <- load_global G "np" ;; zeros_like np vector
            end ;;
  alloc (mkIndiv objfunc vector speed' operator 0 false vector false).

(** [__copy__]: a new object with copies of the arrays. *)
Definition __copy__ (self : ref) : M (World E) ref :=
  s <- deref self ;;
  copied_ind <- __init__ (objfunc s) (_genotype s) (Some (speed s)) (operator s) ;;
  s <- deref self ;;
  setattr copied_ind (set__fitness (_fitness s)) ;;;
  s <- deref self ;;
  setattr copied_ind (set_fitness_calculated (fitness_calculated s)) ;;;
  s <- deref self ;;
  setattr copied_ind (set_best (best s)) ;;;
  ret copied_ind.

(** The [genotype] property and its setter. *)
Definition genotype (self : ref) : M (World E) (list Z) :=
  i <- deref self ;; ret (_genotype i).

Definition genotype_setter (self : ref) (vector : list Z) : M (World E) unit :=
  setattr self (set_fitness_calculated false) ;;;
  setattr self (set__genotype vector).

(** [self.objfunc(self)], logged. *)
Definition call_objfunc (self : ref) : M (World E) Z :=
  i <- deref self ;;
  fun w => let (v, e') := objfunc_call (objfunc i) i (ext w) in
           (Ok v, mkWorld (heap w) (calls w ++ [self]) e').

(** The [fitness] property and its setter. *)
Definition fitness_setter (self : ref) (fit : Z) : M (World E) unit :=
  setattr self (set__fitness fit) ;;;
  setattr self (set_fitness_calculated true).

Definition fitness (self : ref) : M (World E) Z :=
  i <- deref self ;;
  (if negb (fitness_calculated i)
   then fit <- call_objfunc self ;; fitness_setter self fit
   else ret tt) ;;;
  i' <- deref self ;; ret (_fitness i').

(** [apply_speed]. *)
Definition apply_speed (self : ref) : M (World E) ref :=
  s <- deref self ;;
  moved <- lift (Np.add (_genotype s) (speed s)) ;;
  __init__ (objfunc s) moved (Some (speed s)) (operator s).

(** The object a read of [fitness] leaves behind. *)
Definition cached (i : Indiv) (e : E) : Indiv :=
  if fitness_calculated i then i
  else set_fitness_calculated true
         (set__fitness (fst (objfunc_call (objfunc i) i e)) i).

(** [store_best]. *)
Definition store_best (self past_indiv : ref) : M (World E) unit :=
  mine <- fitness self ;;
  theirs <- fitness past_indiv ;;
  if mine <? theirs
  then g <- genotype past_indiv ;; setattr self (set_best g)
  else ret tt.

(** The value a module-level name must hold to serve as a genotype.  (Python
    would store any object; only arrays are genotypes here, and no such name
    is bound by the module as it is written.) *)
Definition as_vector (o : pyobj (list Z)) : M (World E) (list Z) :=
  match o with
  | PValue v => ret v
  | _ => raise (TypeError "not an array")
  end.

(** [reproduce].  [new_vector] is not a local of the method, so Python looks
    it up in the module. *)
Definition reproduce (self : ref) (population : list ref) : M (World E) ref :=
  (* new_indiv = self.operator(self, population, self.objfunc) *)
  s <- deref self ;;
  op <- match operator s with
        | Some op => ret op
        | None => raise (TypeError "'NoneType' object is not callable")
        end ;;
  new_indiv <- operator_call op self population (objfunc s) ;;
  (* new_indiv.genotype = self.objfunc.repair_solution(new_indiv.genotype) *)
  s <- deref self ;;
  g <- genotype new_indiv ;;
  genotype_setter new_indiv (repair_solution (objfunc s) g) ;;;
  (* return Indiv(self.objfunc, new_vector, self.speed, self.operator) *)
  _ <- load_global G "Indiv" ;;
  s <- deref self ;;
  new_vector <- (o <- load_global G "new_vector" ;; as_vector o) ;;
  __init__ (objfunc s) new_vector (Some (speed s)) (operator s).

(** Attribute access from outside the class: the two properties run their
    getters, the instance attributes are read from the object, the methods
    are found on the class, and any other name is an [AttributeError]. *)
Inductive attr : Type :=
| AArray (v : list Z)
| ANumber (z : Z)
| ABool (b : bool)
| AObject (h : option handle)
| AMethod (name : string).

Definition getattr (self : ref) (name : string) : M (World E) attr :=
  match name with
  | "genotype" => v <- genotype self ;; ret (AArray v)
  | "fitness" => f <- fitness self ;; ret (ANumber f)
  | "objfunc" => i <- deref self ;; ret (AObject (Some (objfunc i)))
  | "_genotype" => i <- deref self ;; ret (AArray (_genotype i))
  | "speed" => i <- deref self ;; ret (AArray (speed i))
  | "operator" => i <- deref self ;; ret (AObject (operator i))
  | "_fitness" => i <- deref self ;; ret (ANumber (_fitness i))
  | "fitness_calculated" => i <- deref self ;; ret (ABool (fitness_calculated i))
  | "best" => i <- deref self ;; ret (AArray (best i))
  | "is_dead" => i <- deref self ;; ret (ABool (is_dead i))
  | "__init__" | "__copy__" | "store_best" | "reproduce" | "apply_speed" =>
      ret (AMethod name)
  | _ => raise (AttributeError name)
  end.

End Indiv.

End Individual.

(** ** Algorithms/ES.py *)
Module ES.

Import Individual.

(** The attributes of an [ES] object.  The operators and the objective
    function are external objects.  [population] is [None] while the
    attribute does not exist. *)
Record ES : Type := mkES {
  objfunc : handle;
  params : gmap string Z;
  size : Z;
  n_offspring : Z;
  mutation_op : handle;
  cross_op : handle;
  parent_sel_op : handle;
  selection_op : handle;
  population : option (list ref)
}.

(** What [ES] calls and does not define (the objective function and the
    operators of this version are not among the sources):
    - [opt h]: the attribute [objfunc.opt];
    - [check_bounds h v]: [objfunc.check_bounds(v)];
    - [cross_evolve op parent1 parent_list objfunc]:
      [cross_op.evolve(parent1, parent_list, objfunc)];
    - [mutation_call op new_ind population objfunc]:
      [mutation_op(new_ind, population, objfunc)];
    - [randbelow n e]: the draw below [n] of the process-wide generator. *)
Class Collaborators (E : Type) : Type := {
  opt : handle -> string;
  check_bounds : handle -> list Z -> list Z;
  cross_evolve : handle -> ref -> list ref -> handle -> M (World E) (list Z);
  mutation_call : handle -> ref -> list ref -> handle -> M (World E) (list Z);
  randbelow : nat -> E -> nat * E
}.

(** [ES.__init__].  [inherited] is what [BaseAlgorithm.__init__] (not among
    the sources) left in [self.population]. *)
Definition __init__ (objfunc mutation_op cross_op parent_sel_op selection_op : handle)
    (params : gmap string Z) (population inherited : option (list ref)) : ES :=
  let size := match params !! "popSize" with Some n => n | None => 100 end in
  let n_offspring :=
    match params !! "offspringSize" with Some n => n | None => size end in
  mkES objfunc params size n_offspring mutation_op cross_op parent_sel_op
       selection_op
       (match population with Some p => Some p | None => inherited end).

Section ES.
Context {E : Type} `{Externals E} `{Collaborators E}.
(** The module dictionary of Individual.py, where [Indiv.__init__] looks its
    names up. *)
Variable G : gmap string (pyobj (list Z)).

Definition get_population (self : ES) : M (World E) (list ref) :=
  match population self with
  | Some p => ret p
  | None => raise (AttributeError "population")
  end.

(** [random.choice(seq)]. *)
Definition random_choice (seq : list ref) : M (World E) ref :=
  match seq with
  | [] => raise (IndexError "Cannot choose from an empty sequence")
  | _ =>
      fun w =>
        let (k, e') := randbelow (length seq) (ext w) in
        match seq !! (k mod length seq)%nat with
        | Some r => (Ok r, mkWorld (heap w) (calls w) e')
        | None => (Raise (IndexError "list index out of range"), w)
        end
  end.

(** [best_solution].  [sorted] computes the key of every element, in order,
    before it sorts. *)
Definition best_solution (self : ES) : M (World E) (list Z * Z) :=
  pop <- get_population self ;;
  keys <- mapM fitness pop ;;
  best_solution <- match sorted_reverse (zip keys pop) with
                   | b :: _ => ret b
                   | [] => raise (IndexError "list index out of range")
                   end ;;
  best_fitness <- fitness best_solution ;;
  let best_fitness :=
    if String.eqb (opt (objfunc self)) "min" then best_fitness * -1
    else best_fitness in
  vector <- getattr best_solution "vector" ;;
  match vector with
  | AArray v => ret (v, best_fitness)
  | _ => raise (TypeError "not an array")
  end.

(** One round of the loop of [perturb]: lines 64 to 75. *)
Definition perturb_round (self : ES) (parent_list offspring : list ref)
  : M (World E) (list ref) :=
  (* Cross *)
  parent1 <- random_choice parent_list ;;
  new_solution <- cross_evolve (cross_op self) parent1 parent_list (objfunc self) ;;
  let new_solution := check_bounds (objfunc self) new_solution in
  new_ind <- Individual.__init__ G (objfunc self) new_solution None None ;;
  (* Mutate *)
  pop <- get_population self ;;
  new_solution <- mutation_call (mutation_op self) new_ind pop (objfunc self) ;;
  let new_solution := check_bounds (objfunc self) new_solution in
  new_ind <- Individual.__init__ G (objfunc self) new_solution None None ;;
  (* Add to offspring list *)
  ret (offspring ++ [new_ind]).

(** [while len(offspring) < self.size], with a bound on the rounds. *)
Fixpoint perturb_loop (fuel : nat) (self : ES) (parent_list offspring : list ref)
  : M (World E) (option (list ref)) :=
  if Z.of_nat (length offspring) <? size self
  then match fuel with
       | O => ret None
       | S fuel' =>
           offspring' <- perturb_round self parent_list offspring ;;
           perturb_loop fuel' self parent_list offspring'
       end
  else ret (Some offspring).

(** [perturb]: [None] would mean that the rounds allowed did not suffice. *)
Definition perturb (self : ES) (parent_list : list ref)
  : M (World E) (option (list ref)) :=
  perturb_loop (Z.to_nat (size self)) self parent_list [].

End ES.

(** [objfunc.random_solution()], which [initialize] calls and this module does
    not define: a vector and the external state it leaves. *)
Class Sampler (E : Type) : Type := {
  random_solution : handle -> E -> list Z * E
}.

Section Initialize.
Context {E : Type} `{Sampler E}.
Variable G : gmap string (pyobj (list Z)).

Definition set_population (p : list ref) (self : ES) : ES :=
  mkES (objfunc self) (params self) (size self) (n_offspring self)
       (mutation_op self) (cross_op self) (parent_sel_op self)
       (selection_op self) (Some p).

(** The rounds of the loop of [initialize], [n] of them; [population] is the
    list built so far.  An exception leaves the object as the rounds before
    it made it. *)
Fixpoint initialize_loop (n : nat) (self : ES) (population : list ref)
  : World E -> result unit * ES * World E :=
  match n with
  | O => fun w => (Ok tt, set_population population self, w)
  | S n' =>
      fun w =>
        let (vector, e') := random_solution (objfunc self) (ext w) in
        match Individual.__init__ G (objfunc self) vector None None
                (mkWorld (heap w) (calls w) e') with
        | (Ok new_ind, w') =>
            initialize_loop n' self (population ++ [new_ind]) w'
        | (Raise e, w') => (Raise e, set_population population self, w')
        end
  end.

(** [initialize]: [range(self.size)] is empty when [size] is not positive. *)
Definition initialize (self : ES) : World E -> result unit * ES * World E :=
  initialize_loop (Z.to_nat (size self)) self [].

End Initialize.

End ES.

(** ** pyevolcomp/Operators/OperatorSplit.py *)
Module OperatorSplit.

Import Individual.

(** An operator of [op_list] (the class [Operator] is not among the sources):
    [evolve_of op indiv population objfunc global_best] is
    [op.evolve(indiv, population, objfunc, global_best)], which returns an
    individual and is free to change the world. *)
Record Operator (E : Type) : Type := mkOperator {
  name : string;
  method : string;
  evolve_of : ref -> list ref -> handle -> option ref -> M (World E) ref
}.
Arguments mkOperator {E} name method evolve_of.
Arguments name {E} o.
Arguments method {E} o.
Arguments evolve_of {E} o.

(** The attributes of an [OperatorSplit]: the two [__init__] sets, and the
    name it hands to the constructor of the base class. *)
Record OperatorSplit (E : Type) : Type := mkOperatorSplit {
  op_list : list (Operator E);
  mask : list Z;
  base_name : string
}.
Arguments mkOperatorSplit {E} op_list mask base_name.
Arguments op_list {E} o.
Arguments mask {E} o.
Arguments base_name {E} o.

(** [OperatorSplit.__init__(op_list, mask, name)]: the [name] given is
    replaced by the names of the operators that are not ['nothing'], joined
    by ['+']. *)
Definition __init__ {E} (op_list : list (Operator E)) (mask : list Z)
    (name_given : option string) : OperatorSplit E :=
  mkOperatorSplit op_list mask
    (String.concat "+"
       (map name
            (filter (fun op => lower (method op) <> "nothing") op_list))).

(** The names OperatorSplit.py binds at module level: its imports and its
    class. *)
Definition module_globals {E} : gmap string (pyobj (list (Operator E))) :=
  {[ "random" := PModule "random" ;
     "np" := PModule "numpy" ;
     "copy" := PFunction "copy.copy" ;
     "List" := PClass "typing.List" ;
     "Union" := PClass "typing.Union" ;
     "ParamScheduler" := PClass "ParamScheduler" ;
     "Operator" := PClass "Operator" ;
     "OperatorSplit" := PClass "OperatorSplit" ]}.

Section OperatorSplit.
Context {E : Type}.
Variable G : gmap string (pyobj (list (Operator E))).

(** [self.mask == idx]. *)
Definition mask_eq (mask : list Z) (idx : nat) : list bool :=
  map (fun m => m =? Z.of_nat idx) mask.

(** What [enumerate] accepts. *)
Definition as_iterable (o : pyobj (list (Operator E)))
  : M (World E) (list (Operator E)) :=
  match o with
  | PValue ops => ret ops
  | _ => raise (TypeError "object is not iterable")
  end.

(** The body of the loop, lines 33 and 34.  The right-hand side is evaluated
    first; the assignment writes into the array [indiv.genotype] returns, so
    the genotype setter does not run. *)
Definition evolve_round (self : OperatorSplit E) (indiv : ref)
    (population : list ref) (objfunc : handle) (global_best : option ref)
    (idx : nat) (op : Operator E) : M (World E) unit :=
  aux_indiv <- evolve_of op indiv population objfunc global_best ;;
  a <- genotype aux_indiv ;;
  values <- lift (Np.getitem_mask a (mask_eq (mask self) idx)) ;;
  g <- genotype indiv ;;
  g' <- lift (Np.setitem_mask g (mask_eq (mask self) idx) values) ;;
  setattr indiv (set__genotype g').

Fixpoint evolve_loop (self : OperatorSplit E) (indiv : ref)
    (population : list ref) (objfunc : handle) (global_best : option ref)
    (idx : nat) (ops : list (Operator E)) : M (World E) unit :=
  match ops with
  | [] => ret tt
  | op :: ops' =>
      evolve_round self indiv population objfunc global_best idx op ;;;
      evolve_loop self indiv population objfunc global_best (S idx) ops'
  end.

(** [evolve].  [op_list] and [result] are neither parameters nor assigned in
    the method, so Python looks both up in the module. *)
Definition evolve (self : OperatorSplit E) (indiv : ref)
    (population : list ref) (objfunc : handle) (global_best : option ref)
  : M (World E) (pyobj (list (Operator E))) :=
  ops <- (o <- load_global G "op_list" ;; as_iterable o) ;;
  evolve_loop self indiv population objfunc global_best 0 ops ;;;
  load_global G "result".

End OperatorSplit.

End OperatorSplit.

(** ** metaheuristic_designer/ObjectiveFunc.py *)
Module ObjectiveFunc.

(** The attributes [ObjectiveFunc.__init__] sets. *)
Record ObjectiveFunc : Type := mkObjectiveFunc {
  name : string;
  counter : Z;
  factor : Z;
  vectorized : bool;
  recalculate : bool;
  mode : string
}.

Definition set_counter (c : Z) (o : ObjectiveFunc) : ObjectiveFunc :=
  mkObjectiveFunc (name o) c (factor o) (vectorized o) (recalculate o) (mode o).

(** [ObjectiveFunc.__init__(mode, name, vectorized, recalculate)] (the
    defaults are ['max'], ['some function'], [False], [False]).  The object is
    handed to the caller only when the constructor returns. *)
Definition __init__ (mode name : string) (vectorized recalculate : bool)
  : result ObjectiveFunc :=
  if bool_decide (mode ∉ ["max"; "min"])
  then Raise (ValueError "Optimization objective (mode) must be 'min' or 'max'.")
  else Ok (mkObjectiveFunc name 0 (if String.eqb mode "min" then -1 else 1)
                           vectorized recalculate mode).

(** The methods a problem implements.  Python has one [objective] and one
    [penalize], called on one solution when the function is not vectorized
    and on all solutions at once when it is; each use has its own field. *)
Class Problem (Sol : Type) : Type := {
  objective : Sol -> Z;
  objective_batch : list Sol -> list Z;
  repair_solution : Sol -> Sol;
  penalize : Sol -> Z;
  penalize_batch : list Sol -> Np.operand
}.

(** [penalize] as the base class has it: 0, whatever it is given. *)
Definition penalize_default {Sol : Type} (_ : Sol) : Z := 0.
Definition penalize_batch_default {Sol : Type} (_ : list Sol) : Np.operand :=
  Np.Scalar 0.

(** The population handed to [fitness] (the class is not among the sources):
    the attributes the method reads, and [decode] for what
    [population.decode()] returns. *)
Record Population (Sol : Type) : Type := mkPopulation {
  pop_size : Z;
  fitness_of : list Z;
  fitness_calculated : list Z;
  decode : list Sol
}.
Arguments mkPopulation {Sol} pop_size fitness_of fitness_calculated decode.
Arguments pop_size {Sol} p.
Arguments fitness_of {Sol} p.
Arguments fitness_calculated {Sol} p.
Arguments decode {Sol} p.

(** The world of a call: the objective function object, the population, and
    the log of the solutions [objective] was given. *)
Record State (Sol : Type) : Type := mkState {
  self : ObjectiveFunc;
  population : Population Sol;
  evaluated : list Sol
}.
Arguments mkState {Sol} self population evaluated.
Arguments self {Sol} s.
Arguments population {Sol} s.
Arguments evaluated {Sol} s.

Section ObjectiveFunc.
Context {Sol : Type} `{Problem Sol}.

Definition get : M (State Sol) (State Sol) := fun st => (Ok st, st).

Definition call_objective (solution : Sol) : M (State Sol) Z :=
  fun st => (Ok (objective solution),
             mkState (self st) (population st) (evaluated st ++ [solution])).

Definition call_objective_batch (solutions : list Sol) : M (State Sol) (list Z) :=
  fun st => (Ok (objective_batch solutions),
             mkState (self st) (population st) (evaluated st ++ solutions)).

(** A write to the array behind [population.fitness]. *)
Definition set_fitness_of (f : list Z) : M (State Sol) unit :=
  fun st =>
    (Ok tt, mkState (self st)
                    (mkPopulation (pop_size (population st)) f
                                  (fitness_calculated (population st))
                                  (decode (population st)))
                    (evaluated st)).

Definition set_fitness_calculated (c : list Z) : M (State Sol) unit :=
  fun st =>
    (Ok tt, mkState (self st)
                    (mkPopulation (pop_size (population st))
                                  (fitness_of (population st)) c
                                  (decode (population st)))
                    (evaluated st)).

Definition add_counter (n : Z) : M (State Sol) unit :=
  fun st => (Ok tt, mkState (set_counter (counter (self st) + n) (self st))
                            (population st) (evaluated st)).

(** [fitness_calculated == 0]. *)
Definition not_calculated (c : list Z) : list bool := map (fun x => x =? 0) c.

(** Lines 92 to 99: the loop of the branch that is not vectorized.  The local
    [fitness] is the array of the population, written in place. *)
Fixpoint fitness_loop (adjusted : bool) (idx : nat) (pairs : list (Sol * Z))
  : M (State Sol) unit :=
  match pairs with
  | [] => ret tt
  | (solution, already_calculated) :: pairs' =>
      st <- get ;;
      (if recalculate (self st) || (already_calculated =? 0)
       then
         value <- call_objective solution ;;
         let value :=
           if adjusted then factor (self st) * (value - penalize solution)
           else value in
         st <- get ;;
         f <- lift (Np.setitem (fitness_of (population st)) idx value) ;;
         set_fitness_of f
       else ret tt) ;;;
      fitness_loop adjusted (S idx) pairs'
  end.

(** Lines 79 to 89: the vectorized branch; it returns the local [fitness]. *)
Definition fitness_vectorized (adjusted : bool) : M (State Sol) (list Z) :=
  st <- get ;;
  let solutions := decode (population st) in
  let todo := not_calculated (fitness_calculated (population st)) in
  solutions <- (if recalculate (self st)
                then lift (Np.getitem_mask solutions todo)
                else ret solutions) ;;
  fitness_new <- call_objective_batch solutions ;;
  fitness_new <- (if adjusted
                  then d <- lift (Np.sub fitness_new (penalize_batch solutions)) ;;
                       ret (map (Z.mul (factor (self st))) d)
                  else ret fitness_new) ;;
  if recalculate (self st)
  then f <- lift (Np.setitem_mask (fitness_of (population st)) todo fitness_new) ;;
       set_fitness_of f ;;;
       ret f
  else ret fitness_new.

(** [fitness(population, adjusted)] (the default of [adjusted] is [True];
    [parallel] and [threads] are not read). *)
Definition fitness (adjusted : bool) : M (State Sol) (list Z) :=
  st <- get ;;
  fitness <- (if vectorized (self st)
              then fitness_vectorized adjusted
              else
                fitness_loop adjusted 0
                  (zip (decode (population st))
                       (fitness_calculated (population st))) ;;;
                st' <- get ;; ret (fitness_of (population st'))) ;;
  st <- get ;;
  (if recalculate (self st)
   then add_counter (pop_size (population st))
   else add_counter (pop_size (population st)
                     - foldr Z.add 0 (fitness_calculated (population st)))) ;;;
  st <- get ;;
  set_fitness_calculated (map (fun _ => 1) (fitness_calculated (population st))) ;;;
  ret fitness.

(** [__call__]. *)
Definition __call__ (adjusted : bool) : M (State Sol) (list Z) :=
  fitness adjusted.

End ObjectiveFunc.

End ObjectiveFunc.

(** ** Statements about [ObjectiveFunc.fitness] *)
Module Fitness.

Import ObjectiveFunc.

(** An object as the constructor builds it, whatever its counter has come to:
    its mode was accepted and its factor is the one derived from the mode. *)
Definition built (o : ObjectiveFunc) : Prop :=
  __init__ (mode o) (name o) (vectorized o) (recalculate o) = Ok (set_counter 0 o).

(** Whether a call hands to [objective] the solution of an individual whose
    entry of [fitness_calculated] is [c]: the test of line 93 in the loop, and
    in the vectorized branch the selection of line 80 (made when [recalculate]
    is set, all solutions being passed when it is not). *)
Definition evaluates (o : ObjectiveFunc) (c : Z) : bool :=
  if vectorized o
  then (if recalculate o then c =? 0 else true)
  else recalculate o || (c =? 0).

(** The value line 97 (line 84 in the vectorized branch) computes. *)
Definition value_of {Sol : Type} `{Problem Sol} (o : ObjectiveFunc)
    (adjusted : bool) (solution : Sol) : Z :=
  if adjusted then factor o * (objective solution - penalize solution)
  else objective solution.

(** The array the loop of lines 92 to 99 leaves, from index [idx] on. *)
Fixpoint written {Sol : Type} `{Problem Sol} (o : ObjectiveFunc)
    (adjusted : bool) (idx : nat) (pairs : list (Sol * Z)) (f : list Z) : list Z :=
  match pairs with
  | [] => f
  | (solution, c) :: pairs' =>
      written o adjusted (S idx) pairs'
        (if recalculate o || (c =? 0)
         then <[idx := value_of o adjusted solution]> f else f)
  end.

(** A vectorized problem computes on a batch what it computes on each
    solution: [objective] maps over the batch, and [penalize] returns either
    the penalties of the batch or one number that is the penalty of each. *)
Definition batch_pointwise {Sol : Type} `{Problem Sol} : Prop :=
  (forall l : list Sol, objective_batch l = map objective l)
  /\ (forall l : list Sol,
        penalize_batch l = Np.Array (map penalize l)
        \/ exists c : Z, penalize_batch l = Np.Scalar c
                         /\ Forall (fun s => penalize s = c) l).

End Fitness.

(** ** Statements about [store_best] *)
Module StoreBest.

Import Individual.

(** What "keeps whichever genotype scores higher, and never replaces the stored
    best by a worse one" says of one call, for individuals scored by [score]:
    the stored best afterwards is the better of the individual's and the
    candidate's genotype, and scores no less than the stored best before. *)
Definition keeps_the_higher {E : Type} `{Externals E} (score : list Z -> Z)
    (w : World E) (self candidate : ref) : Prop :=
  forall (s c s' : Indiv) (w' : World E),
    heap w !! self = Some s ->
    heap w !! candidate = Some c ->
    store_best self candidate w = (Ok tt, w') ->
    heap w' !! self = Some s' ->
    best s' = (if score (_genotype s) <? score (_genotype c)
               then _genotype c else _genotype s)
    /\ score (best s) <= score (best s').

(** The cached fitness of an individual, when there is one, is the score of
    its genotype. *)
Definition cache_ok (score : list Z -> Z) (i : Indiv) : Prop :=
  fitness_calculated i = true -> _fitness i = score (_genotype i).

End StoreBest.

(** ** Concrete collaborators, for the worked examples *)
Module Examples.

Import Individual.

Definition total (v : list Z) : Z := foldr Z.add 0 v.

Definition clip (lo hi : Z) (v : list Z) : list Z :=
  map (fun x => Z.max lo (Z.min hi x)) v.

(** An objective function that scores a genotype by the sum of its entries
    and repairs by clipping to [-100, 100]; an operator that hands back the
    individual it was given. *)
Definition sum_objective : Externals unit :=
  {| objfunc_call := fun _ i e => (total (_genotype i), e);
     repair_solution := fun _ v => clip (-100) 100 v;
     operator_call := fun _ self _ _ => ret self |}.

(** An objective function whose value drifts from one invocation to the
    next: the sum of the genotype plus the number of earlier invocations. *)
Definition drifting_objective : Externals Z :=
  {| objfunc_call := fun _ i e => (total (_genotype i) + e, e + 1);
     repair_solution := fun _ v => clip (-100) 100 v;
     operator_call := fun _ self _ _ => ret self |}.

Definition indiv (genotype best : list Z) : Indiv :=
  mkIndiv 0%nat genotype (replicate (length genotype) 0) None 0 false best false.

(** An individual that held [10] when it was built and was then given [1],
    and a candidate holding [5]. *)
Definition moved_on : World unit :=
  mkWorld [indiv [1] [10]; indiv [5] [5]] [] tt.

Definition fresh_pair : World unit :=
  mkWorld [indiv [1] [1]; indiv [5] [5]] [] tt.

Definition one_fresh : World Z :=
  mkWorld [indiv [3; 4] [3; 4]] [] 0.

(** An individual out of bounds whose fitness is cached and whose operator
    (number 7) hands it back. *)
Definition evaluated_once : World unit :=
  mkWorld [mkIndiv 0%nat [150] [0] (Some 7%nat) 150 true [150] false] [0%nat] tt.

(** Two operators that build a new individual and leave the one they are
    given alone: the first adds ten to every entry, the second fills every
    entry with the sum of the entries. *)
Definition add_ten : OperatorSplit.Operator unit :=
  OperatorSplit.mkOperator "add_ten" "custom"
    (fun indiv _ _ _ =>
       i <- deref indiv ;;
       alloc (set__genotype (map (Z.add 10) (_genotype i)) i)).

Definition fill_total : OperatorSplit.Operator unit :=
  OperatorSplit.mkOperator "fill_total" "custom"
    (fun indiv _ _ _ =>
       i <- deref indiv ;;
       alloc (set__genotype (map (fun _ => total (_genotype i)) (_genotype i)) i)).

Definition split_0101 : OperatorSplit.OperatorSplit unit :=
  OperatorSplit.__init__ [add_ten; fill_total] [0; 1; 0; 1] None.

Definition four_dim : World unit :=
  mkWorld [indiv [1; 2; 3; 4] [1; 2; 3; 4]] [] tt.

(** Collaborators for [ES]: a maximised objective, repair by clipping to
    [-100, 100], a crossover that hands on the parent's genotype, a mutation
    that adds one to every entry, and a generator that always draws 0. *)
Definition plain_operators : ES.Collaborators unit :=
  {| ES.opt := fun _ => "max";
     ES.check_bounds := fun _ v => clip (-100) 100 v;
     ES.cross_evolve := fun _ parent1 _ _ => genotype parent1;
     ES.mutation_call := fun _ new_ind _ _ =>
                           g <- genotype new_ind ;; ret (map (Z.add 1) g);
     ES.randbelow := fun _ e => (0%nat, e) |}.

(** [ES(objfunc, mutation_op, cross_op, parent_sel_op, selection_op,
    {'popSize': 2, 'offspringSize': 3}, population=[the individual 0])]. *)
Definition two_and_three : ES.ES :=
  ES.__init__ 0%nat 1%nat 2%nat 3%nat 4%nat
    {[ "popSize" := 2 ; "offspringSize" := 3 ]} (Some [0%nat]) None.

(** Individual.py with [import numpy as np] added. *)
Definition with_numpy : gmap string (pyobj (list Z)) :=
  <[ "np" := PModule "numpy" ]> Individual.module_globals.

(** A problem on vectors: the sum of the entries, no penalty. *)
Definition sum_problem : ObjectiveFunc.Problem (list Z) :=
  {| ObjectiveFunc.objective := total;
     ObjectiveFunc.objective_batch := map total;
     ObjectiveFunc.repair_solution := clip (-100) 100;
     ObjectiveFunc.penalize := ObjectiveFunc.penalize_default;
     ObjectiveFunc.penalize_batch := ObjectiveFunc.penalize_batch_default |}.

(** A population of two, the first individual marked as calculated (its
    fitness is 5), handed to an objective function with [vectorized] and
    [recalculate] as given. *)
Definition half_done (mode : string) (vectorized recalculate : bool)
  : ObjectiveFunc.State (list Z) :=
  ObjectiveFunc.mkState
    (ObjectiveFunc.mkObjectiveFunc "sum" 0
       (if String.eqb mode "min" then -1 else 1) vectorized recalculate mode)
    (ObjectiveFunc.mkPopulation 2 [5; 0] [1; 0] [[1; 2]; [3; 4]])
    [].

(** Three individuals, the second and third of equal, maximal fitness. *)
Definition three_scored : World unit :=
  mkWorld [indiv [1] [1]; indiv [7] [7]; indiv [3; 4] [3; 4]] [] tt.

Definition of_three : ES.ES :=
  ES.__init__ 0%nat 1%nat 2%nat 3%nat 4%nat ∅ (Some [0%nat; 1%nat; 2%nat]) None.

End Examples.

(** ** ObjectiveFunc.py: the classes for vectors *)
Module ObjectiveVectorFunc.

(** [np.clip(a, a_min, a_max)]: [minimum(a_max, maximum(a, a_min))]. *)
Definition np_clip (a : list Z) (a_min a_max : Z) : list Z :=
  map (fun x => Z.min a_max (Z.max x a_min)) a.

(** An [ObjectiveVectorFunc]: the attributes of the base class and its own. *)
Record ObjectiveVectorFunc : Type := mkObjectiveVectorFunc {
  base : ObjectiveFunc.ObjectiveFunc;
  vecsize : Z;
  low_lim : Z;
  up_lim : Z
}.

(** [ObjectiveVectorFunc.__init__(vecsize, mode, low_lim, up_lim, name,
    vectorized, recalculate)] (defaults ['max'], -100, 100, ['some function'],
    [False], [False]): the base constructor runs first. *)
Definition __init__ (vecsize : Z) (mode : string) (low_lim up_lim : Z)
    (name : string) (vectorized recalculate : bool) : result ObjectiveVectorFunc :=
  match ObjectiveFunc.__init__ mode name vectorized recalculate with
  | Ok b => Ok (mkObjectiveVectorFunc b vecsize low_lim up_lim)
  | Raise e => Raise e
  end.

Definition repair_solution (self : ObjectiveVectorFunc) (vector : list Z) : list Z :=
  np_clip vector (low_lim self) (up_lim self).

(** [repair_speed]: [None] stays [None]. *)
Definition repair_speed (self : ObjectiveVectorFunc) (speed : option (list Z))
  : option (list Z) :=
  match speed with
  | Some s => Some (repair_solution self s)
  | None => None
  end.

End ObjectiveVectorFunc.

Module ObjectiveFromLambda.

Import ObjectiveVectorFunc.

(** A callable: what it returns on a vector, what it returns on the rows of
    a matrix, and its [__name__]. *)
Record callable : Type := mkCallable {
  call : list Z -> Z;
  call_rows : list (list Z) -> list Z;
  __name__ : string
}.

Record ObjectiveFromLambda : Type := mkObjectiveFromLambda {
  vec : ObjectiveVectorFunc;
  obj_func : callable
}.

(** [ObjectiveFromLambda.__init__(obj_func, vecsize, mode, low_lim, up_lim,
    name)]: [vectorized] and [recalculate] are not passed on, so the base
    classes take their defaults. *)
Definition __init__ (obj_func : callable) (vecsize : Z) (mode : string)
    (low_lim up_lim : Z) (name : option string) : result ObjectiveFromLambda :=
  let name := match name with
              | None => __name__ obj_func
              | Some n => n
              end in
  match ObjectiveVectorFunc.__init__ vecsize mode low_lim up_lim name false false with
  | Ok v => Ok (mkObjectiveFromLambda v obj_func)
  | Raise e => Raise e
  end.

Definition objective (self : ObjectiveFromLambda) (vector : list Z) : Z :=
  call (obj_func self) vector.

Definition repair_solution (self : ObjectiveFromLambda) (vector : list Z) : list Z :=
  np_clip vector (low_lim (vec self)) (up_lim (vec self)).

(** The methods [fitness] finds on an [ObjectiveFromLambda]: [penalize] is
    the one of the base class. *)
Definition methods (self : ObjectiveFromLambda) : ObjectiveFunc.Problem (list Z) :=
  {| ObjectiveFunc.objective := objective self;
     ObjectiveFunc.objective_batch := call_rows (obj_func self);
     ObjectiveFunc.repair_solution := repair_solution self;
     ObjectiveFunc.penalize := ObjectiveFunc.penalize_default;
     ObjectiveFunc.penalize_batch := ObjectiveFunc.penalize_batch_default |}.

End ObjectiveFromLambda.

(** ** metaheuristic_designer/algorithms/AlgorithmSelection.py *)
Module AlgorithmSelection.

(** The algorithms are objects; this module reads and writes their [name].
    The world is the name of every algorithm object, by reference. *)
Definition ref := nat.

(** A value of the [params] dictionary. *)
Inductive value : Type :=
| VInt (n : Z)
| VBool (b : bool).

Record AlgorithmSelection : Type := mkAlgorithmSelection {
  repetitions : value;
  algorithm_list : list ref;
  solutions : list (list Z);
  verbose : value
}.

Definition get_name (alg : ref) : M (list string) string :=
  fun names => match names !! alg with
               | Some n => (Ok n, names)
               | None => (Raise (SystemError "dangling reference"), names)
               end.

Definition set_name (alg : ref) (n : string) : M (list string) unit :=
  fun names => (Ok tt, <[alg := n]> names).

(** [Counter.update([key])]. *)
Definition counter_update (key : string) (name_counter : gmap string nat)
  : gmap string nat :=
  <[key := S (default 0%nat (name_counter !! key))]> name_counter.

(** Lines 38 to 42, the loop under [# Avoid repeating names]. *)
Fixpoint avoid_repeating (algorithm_list : list ref)
    (name_counter : gmap string nat) : M (list string) unit :=
  match algorithm_list with
  | [] => ret tt
  | alg :: rest =>
      prev_name <- get_name alg ;;
      (match name_counter !! prev_name with
       | Some count => set_name alg (prev_name +:+ pretty (count + 1)%nat)
       | None => ret tt
       end) ;;;
      avoid_repeating rest (counter_update prev_name name_counter)
  end.

(** [AlgorithmSelection.__init__(algorithm_list, params)]: [params] is
    [None] by default, and then the empty dictionary. *)
Definition __init__ (algorithm_list : list ref)
    (params : option (gmap string value)) : M (list string) AlgorithmSelection :=
  let params := match params with Some d => d | None => ∅ end in
  let repetitions := default (VInt 10) (params !! "repetitions") in
  avoid_repeating algorithm_list ∅ ;;;
  ret (mkAlgorithmSelection repetitions algorithm_list []
         (default (VBool true) (params !! "verbose"))).

(** The name the loop gives to an algorithm called [n] that comes after [k]
    algorithms whose name was [n] when they were met. *)
Definition renamed (n : string) (k : nat) : string :=
  match k with
  | O => n
  | S _ => n +:+ pretty (k + 1)%nat
  end.

(** How many of the names in [l] are [n]. *)
Definition occurrences (n : string) (l : list string) : nat :=
  length (filter (fun m => m = n) l).

End AlgorithmSelection.

(** ** metaheuristic_designer/strategies/Classic/HS.py *)
Module HS.

(** The constructors HS.py calls are not among the sources; what it hands to
    them is kept as data.  Numbers are of a type [num] with the product and
    the difference from 1 that the constructor computes. *)
Section HS.
Variable num : Type.
Variable mul : num -> num -> num.
Variable one_minus : num -> num.

Inductive value : Type :=
| Num (x : num)
| Int (n : Z)
| Str (s : string).

#[local] Unset Elimination Schemes.
Inductive Operator : Type :=
| OperatorVector (method : string) (params : list (string * value))
| OperatorMeta (method : string) (op_list : list Operator).
#[local] Set Elimination Schemes.

(** What [HS.__init__] passes to [VariablePopulation.__init__]. *)
Record HS : Type := mkHS {
  initializer_pop_size : Z;
  evolve_op : Operator;
  survivor_sel : string;
  n_offspring : Z;
  params : gmap string num;
  name : string
}.

Inductive error : Type := KeyError (key : string).

(** [params[key]] on a dictionary. *)
Definition getitem (params : gmap string num) (key : string) : error + num :=
  match params !! key with
  | Some x => inr x
  | None => inl (KeyError key)
  end.

(** [HS.__init__(initializer, params, name)], for an initializer of the given
    [pop_size]; [params] is the empty dictionary by default.  The entries of
    a dictionary display and the operands of a product are evaluated left to
    right. *)
Definition __init__ (pop_size : Z) (params : gmap string num) (name : string)
  : error + HS :=
  let survivor_sel := "(m+n)" in
  let HSM := pop_size in
  let cross := OperatorVector "Multicross" [("Nindiv", Int HSM)] in
  match getitem params "BW" with
  | inl e => inl e
  | inr bw =>
      match getitem params "HMCR" with
      | inl e => inl e
      | inr hmcr =>
          match getitem params "PAR" with
          | inl e => inl e
          | inr par =>
              let mutate1 :=
                OperatorVector "MutNoise"
                  [("distrib", Str "Gauss"); ("F", Num bw);
                   ("Cr", Num (mul hmcr par))] in
              match getitem params "HMCR" with
              | inl e => inl e
              | inr hmcr' =>
                  let rand1 :=
                    OperatorVector "RandomMask" [("Cr", Num (one_minus hmcr'))] in
                  let mutate := OperatorMeta "Sequence" [mutate1; rand1] in
                  let evolve_op := OperatorMeta "Sequence" [cross; mutate] in
                  inr (mkHS pop_size evolve_op survivor_sel 1 params name)
              end
          end
      end
  end.

End HS.

End HS.

(** ** Statements about new individuals *)
Module Fresh.

Import Individual.

(** The individual the constructor builds on a vector when no speed is
    given and numpy is there. *)
Definition newborn (objfunc : handle) (vector : list Z) : Indiv :=
  mkIndiv objfunc vector (replicate (length vector) 0) None 0 false vector false.

(** The vectors [n] calls of [objfunc.random_solution()] return in turn, and
    the external state they leave. *)
Fixpoint draws {E : Type} `{ES.Sampler E} (n : nat) (objfunc : handle) (e : E)
  : list (list Z) * E :=
  match n with
  | O => ([], e)
  | S n' =>
      let (v, e1) := ES.random_solution objfunc e in
      let (vs, e2) := draws n' objfunc e1 in
      (v :: vs, e2)
  end.

End Fresh.

(** ** More worked inputs *)
Module MoreExamples.

Import Individual Examples.

(** Two solutions and one flag, for a vectorized, recalculating function. *)
Definition short_flags : ObjectiveFunc.State (list Z) :=
  ObjectiveFunc.mkState
    (ObjectiveFunc.mkObjectiveFunc "sum" 0 1 true true "max")
    (ObjectiveFunc.mkPopulation 2 [5; 0] [0] [[1; 2]; [3; 4]])
    [].

Definition sum_callable : ObjectiveFromLambda.callable :=
  ObjectiveFromLambda.mkCallable total (map total) "total".

(** Limits -100 and 100, and limits given the wrong way round. *)
Definition bounded : ObjectiveVectorFunc.ObjectiveVectorFunc :=
  ObjectiveVectorFunc.mkObjectiveVectorFunc
    (ObjectiveFunc.mkObjectiveFunc "sum" 0 1 false false "max") 3 (-100) 100.

Definition inverted : ObjectiveVectorFunc.ObjectiveVectorFunc :=
  ObjectiveVectorFunc.mkObjectiveVectorFunc
    (ObjectiveFunc.mkObjectiveFunc "sum" 0 1 false false "max") 3 5 1.

(** Operators that read the individual they are given and write nothing:
    the crossover hands on the parent's genotype, the mutation adds 200 to
    every entry. *)
Definition genotype_at (w : World unit) (r : Individual.ref) : list Z :=
  match heap w !! r with
  | Some i => _genotype i
  | None => []
  end.

Definition reading_operators : ES.Collaborators unit :=
  {| ES.opt := fun _ => "max";
     ES.check_bounds := fun _ v => clip (-100) 100 v;
     ES.cross_evolve := fun _ parent1 _ _ w =>
       (Ok (genotype_at w parent1), mkWorld (heap w) (calls w) (ext w));
     ES.mutation_call := fun _ new_ind _ _ w =>
       (Ok (map (Z.add 200) (genotype_at w new_ind)),
        mkWorld (heap w) (calls w) (ext w));
     ES.randbelow := fun _ e => (0%nat, e) |}.

Definition fixed_sampler : ES.Sampler unit :=
  {| ES.random_solution := fun _ e => ([1; 2], e) |}.

(** A sampler whose vectors change from one draw to the next: the external
    state counts the draws. *)
Definition counting_sampler : ES.Sampler Z :=
  {| ES.random_solution := fun _ e => ([e; e + 1], e + 1) |}.

(** [ES(..., {'popSize': 2}, population=[the individual 0])] and the same
    with ['popSize'] 0. *)
Definition of_two : ES.ES :=
  ES.__init__ 0%nat 1%nat 2%nat 3%nat 4%nat {[ "popSize" := 2 ]} (Some [0%nat]) None.

Definition of_none : ES.ES :=
  ES.__init__ 0%nat 1%nat 2%nat 3%nat 4%nat {[ "popSize" := 0 ]} (Some [0%nat]) None.

(** An individual that is dead and has its fitness cached. *)
Definition dead_one : World unit :=
  mkWorld [mkIndiv 0%nat [1; 2] [0; 0] None 3 true [1; 2] true] [] tt.

End MoreExamples.
Import Individual.

Section IndivFacts.
Context {E : Type} `{Externals E}.
Variable G : gmap string (pyobj (list Z)).

Lemma deref_Some (w : World E) (r : ref) (i : Indiv) :
  heap w !! r = Some i -> deref r w = (Ok i, w).
Proof. intros Hr. unfold deref. now rewrite Hr. Qed.

Lemma setattr_Some (w : World E) (r : ref) (i : Indiv) (f : Indiv -> Indiv) :
  heap w !! r = Some i ->
  setattr r f w = (Ok tt, mkWorld (<[r := f i]> (heap w)) (calls w) (ext w)).
Proof. intros Hr. unfold setattr. now rewrite Hr. Qed.

Lemma heap_insert_eq (l : list Indiv) (r : ref) (i j : Indiv) :
  l !! r = Some i -> <[r := j]> l !! r = Some j.
Proof. intros Hr. apply list_lookup_insert_eq. eapply lookup_lt_Some, Hr. Qed.

Lemma genotype_setter_Some (w : World E) (r : ref) (i : Indiv) (v : list Z) :
  heap w !! r = Some i ->
  genotype_setter r v w =
    (Ok tt, mkWorld (<[r := set__genotype v (set_fitness_calculated false i)]> (heap w))
                    (calls w) (ext w)).
Proof.
  intros Hr. unfold genotype_setter, bind.
  rewrite (setattr_Some _ _ _ _ Hr).
  erewrite setattr_Some by (cbn; eapply heap_insert_eq, Hr).
  cbn. now rewrite list_insert_insert_eq.
Qed.

Lemma fitness_setter_Some (w : World E) (r : ref) (i : Indiv) (v : Z) :
  heap w !! r = Some i ->
  fitness_setter r v w =
    (Ok tt, mkWorld (<[r := set_fitness_calculated true (set__fitness v i)]> (heap w))
                    (calls w) (ext w)).
Proof.
  intros Hr. unfold fitness_setter, bind.
  rewrite (setattr_Some _ _ _ _ Hr).
  erewrite setattr_Some by (cbn; eapply heap_insert_eq, Hr).
  cbn. now rewrite list_insert_insert_eq.
Qed.

(** Reading the fitness of an individual whose flag is set: the cache. *)
Lemma fitness_cached (w : World E) (r : ref) (i : Indiv) :
  heap w !! r = Some i -> fitness_calculated i = true ->
  fitness r w = (Ok (_fitness i), w).
Proof.
  intros Hr Hc. unfold fitness, bind. rewrite (deref_Some _ _ _ Hr), Hc. cbn.
  now rewrite (deref_Some _ _ _ Hr).
Qed.

(** Reading the fitness of an individual whose flag is clear: one call. *)
Lemma fitness_computed (w : World E) (r : ref) (i : Indiv) :
  heap w !! r = Some i -> fitness_calculated i = false ->
  let v := fst (objfunc_call (objfunc i) i (ext w)) in
  fitness r w =
    (Ok v, mkWorld (<[r := set_fitness_calculated true (set__fitness v i)]> (heap w))
                   (calls w ++ [r])
                   (snd (objfunc_call (objfunc i) i (ext w)))).
Proof.
  intros Hr Hc v. unfold fitness, bind. rewrite (deref_Some _ _ _ Hr), Hc. cbn.
  unfold call_objfunc, bind. rewrite (deref_Some _ _ _ Hr).
  subst v. destruct (objfunc_call (objfunc i) i (ext w)) as [v e'] eqn:Hv. cbn.
  erewrite fitness_setter_Some by (cbn; exact Hr). cbn.
  erewrite deref_Some by (cbn; eapply heap_insert_eq, Hr). reflexivity.
Qed.

End IndivFacts.

Section FitnessCache.
Context {E : Type} `{Externals E}.

(** C1.  Reading the fitness of an individual twice, its genotype not being
    reassigned in between, returns the same value both times; the second read
    leaves the world as it is, so over the two reads the objective function is
    invoked once when the fitness had not been computed (and not at all when
    it had): the first read computes, caches the value and sets
    [fitness_calculated].  Reassigning the genotype clears
    [fitness_calculated], and the next read invokes the objective function
    again, once, on the individual with its new genotype. *)
Theorem fitness_read_twice_one_call (w : World E) (r : ref) (i : Indiv) :
  heap w !! r = Some i ->
  exists (v : Z) (w1 : World E) (i1 : Indiv),
    fitness r w = (Ok v, w1)
    /\ calls w1 = calls w ++ (if fitness_calculated i then [] else [r])
    /\ (fitness_calculated i = false ->
        v = fst (objfunc_call (Individual.objfunc i) i (ext w)))
    /\ heap w1 !! r = Some i1
    /\ fitness_calculated i1 = true /\ _fitness i1 = v
    /\ fitness r w1 = (Ok v, w1)
    /\ forall vector : list Z,
       exists (w2 : World E) (i2 : Indiv),
         genotype_setter r vector w1 = (Ok tt, w2)
         /\ calls w2 = calls w1
         /\ heap w2 !! r = Some i2
         /\ fitness_calculated i2 = false /\ _genotype i2 = vector
         /\ exists (v' : Z) (w3 : World E),
              fitness r w2 = (Ok v', w3)
              /\ calls w3 = calls w2 ++ [r]
              /\ v' = fst (objfunc_call (Individual.objfunc i2) i2 (ext w2)).
Proof.
  intros Hr.
  assert (Hfirst : exists v w1 i1,
             fitness r w = (Ok v, w1)
             /\ calls w1 = calls w ++ (if fitness_calculated i then [] else [r])
             /\ (fitness_calculated i = false ->
                 v = fst (objfunc_call (Individual.objfunc i) i (ext w)))
             /\ heap w1 !! r = Some i1
             /\ fitness_calculated i1 = true /\ _fitness i1 = v).
  { destruct (fitness_calculated i) eqn:Hc.
    - exists (_fitness i), w, i. rewrite (fitness_cached _ _ _ Hr Hc).
      rewrite app_nil_r. repeat split; auto; discriminate.
    - eexists _, _, _. rewrite (fitness_computed _ _ _ Hr Hc). cbn.
      split; [reflexivity |]. split; [reflexivity |]. split; [reflexivity |].
      split; [eapply heap_insert_eq, Hr |]. split; reflexivity. }
  destruct Hfirst as (v & w1 & i1 & Hf & Hcalls & Hv & Hr1 & Hc1 & Hv1).
  exists v, w1, i1. repeat (split; [assumption |]).
  split.
  { rewrite (fitness_cached _ _ _ Hr1 Hc1). now rewrite Hv1. }
  intros vector.
  eexists _, _. rewrite (genotype_setter_Some _ _ _ _ Hr1). cbn.
  split; [reflexivity |]. split; [reflexivity |].
  split; [eapply heap_insert_eq, Hr1 |].
  split; [reflexivity |]. split; [reflexivity |].
  eexists _, _.
  erewrite fitness_computed; [| cbn; eapply heap_insert_eq, Hr1 | reflexivity].
  cbn. repeat split.
Qed.

End FitnessCache.

Section FitnessRun.
Context {E : Type} `{Externals E}.

Lemma fitness_run (w : World E) (r : ref) (i : Indiv) :
  heap w !! r = Some i ->
  fitness r w =
    (Ok (_fitness (cached i (ext w))),
     mkWorld (<[r := cached i (ext w)]> (heap w))
             (calls w ++ (if fitness_calculated i then [] else [r]))
             (if fitness_calculated i then ext w
              else snd (objfunc_call (Individual.objfunc i) i (ext w)))).
Proof.
  intros Hr. unfold cached. destruct (fitness_calculated i) eqn:Hc.
  - rewrite (fitness_cached _ _ _ Hr Hc), app_nil_r. cbn.
    rewrite list_insert_id by exact Hr. now destruct w.
  - now rewrite (fitness_computed _ _ _ Hr Hc).
Qed.

Lemma cached_genotype (i : Indiv) (e : E) : _genotype (cached i e) = _genotype i.
Proof. unfold cached. now destruct (fitness_calculated i). Qed.

Lemma cached_best (i : Indiv) (e : E) : best (cached i e) = best i.
Proof. unfold cached. now destruct (fitness_calculated i). Qed.

Lemma cached_flag (i : Indiv) (e : E) : fitness_calculated (cached i e) = true.
Proof. unfold cached. now destruct (fitness_calculated i) eqn:Hc. Qed.

Lemma fitness_heap_length (w w' : World E) (r : ref) (v : Z) :
  fitness r w = (Ok v, w') -> length (heap w') = length (heap w).
Proof.
  destruct (heap w !! r) as [i |] eqn:Hr.
  - rewrite (fitness_run _ _ _ Hr). intros [= _ <-]. cbn. apply length_insert.
  - unfold fitness, bind, deref. rewrite Hr. discriminate.
Qed.

End FitnessRun.

Section StoreBestFacts.
Context {E : Type} `{Externals E}.
Variable score : list Z -> Z.
Hypothesis pure_score :
  forall (h : handle) (i : Indiv) (e : E),
    objfunc_call h i e = (score (_genotype i), e).

Lemma cached_fitness (i : Indiv) (e : E) :
  StoreBest.cache_ok score i -> _fitness (cached i e) = score (_genotype i).
Proof.
  unfold StoreBest.cache_ok, cached. intros Hok.
  destruct (fitness_calculated i); [auto |]. cbn. now rewrite pure_score.
Qed.

(** What [store_best] does, whatever the stored best is: the comparison is
    between the fitness of the current genotype and that of the candidate. *)
Lemma store_best_run (w : World E) (self candidate : ref) (s c : Indiv) :
  heap w !! self = Some s ->
  heap w !! candidate = Some c ->
  StoreBest.cache_ok score s -> StoreBest.cache_ok score c ->
  exists (w' : World E) (s' : Indiv),
    store_best self candidate w = (Ok tt, w')
    /\ heap w' !! self = Some s'
    /\ _genotype s' = _genotype s
    /\ best s' = (if score (_genotype s) <? score (_genotype c)
                  then _genotype c else best s).
Proof.
  intros Hs Hc Hoks Hokc. unfold store_best, bind.
  rewrite (fitness_run _ _ _ Hs). cbn.
  set (s1 := cached s (ext w)).
  set (w1 := mkWorld _ _ _).
  assert (Hs1 : heap w1 !! self = Some s1) by (eapply heap_insert_eq, Hs).
  assert (Hc1 : exists c1, heap w1 !! candidate = Some c1
                           /\ _genotype c1 = _genotype c
                           /\ StoreBest.cache_ok score c1).
  { destruct (decide (self = candidate)) as [-> | Hne].
    - exists s1. split; [exact Hs1 |]. assert (s = c) by congruence. subst c.
      split; [apply cached_genotype |].
      intros _. subst s1. rewrite cached_genotype. now apply cached_fitness.
    - exists c. split; [| auto]. subst w1. cbn.
      now rewrite list_lookup_insert_ne. }
  destruct Hc1 as (c1 & Hc1 & Hg1 & Hok1).
  rewrite (fitness_run _ _ _ Hc1). cbn.
  set (c2 := cached c1 (ext w1)).
  set (w2 := mkWorld _ _ _).
  assert (Hc2 : heap w2 !! candidate = Some c2) by (eapply heap_insert_eq, Hc1).
  assert (Hs2 : exists s2, heap w2 !! self = Some s2
                           /\ _genotype s2 = _genotype s /\ best s2 = best s).
  { destruct (decide (candidate = self)) as [-> | Hne].
    - exists c2. split; [exact Hc2 |]. assert (c1 = s1) by congruence. subst c1.
      subst c2 s1. now rewrite !cached_genotype, !cached_best.
    - exists s1. split; [subst w2; cbn; now rewrite list_lookup_insert_ne |].
      subst s1. now rewrite cached_genotype, cached_best. }
  destruct Hs2 as (s2 & Hs2 & Hgs2 & Hbs2).
  subst s1 c2. rewrite (cached_fitness _ _ Hoks), (cached_fitness _ _ Hok1), Hg1.
  destruct (score (_genotype s) <? score (_genotype c)) eqn:Hlt.
  - unfold genotype, bind. rewrite (deref_Some _ _ _ Hc2). cbn.
    rewrite (setattr_Some _ _ _ _ Hs2). eexists _, _. split; [reflexivity |].
    cbn. split; [eapply heap_insert_eq, Hs2 |]. cbn.
    rewrite cached_genotype. auto.
  - exists w2, s2. cbn. auto.
Qed.

(** When the objective function scores the genotype alone and every cached
    fitness is the score of the genotype it was computed on, the same in terms
    of scores: for an individual whose stored best is its current genotype,
    the stored best afterwards is the higher-scoring of the two genotypes. *)
Lemma store_best_keeps_the_higher_scored
    (w : World E) (self candidate : ref) (s c : Indiv) :
  heap w !! self = Some s ->
  heap w !! candidate = Some c ->
  StoreBest.cache_ok score s -> StoreBest.cache_ok score c ->
  best s = _genotype s ->
  (exists w' : World E, store_best self candidate w = (Ok tt, w'))
  /\ StoreBest.keeps_the_higher score w self candidate.
Proof.
  intros Hs Hc Hoks Hokc Hbest.
  destruct (store_best_run w self candidate s c Hs Hc Hoks Hokc)
    as (w' & s' & Hrun & Hs' & _ & Hb).
  split; [now exists w' |].
  intros s0 c0 s0' w0' Hs0 Hc0 Hrun0 Hs0'.
  assert (s0 = s) by congruence. assert (c0 = c) by congruence. subst s0 c0.
  rewrite Hrun in Hrun0. injection Hrun0 as <-.
  assert (s0' = s') by congruence. subst s0'.
  rewrite Hb, Hbest. split; [reflexivity |].
  destruct (score (_genotype s) <? score (_genotype c)) eqn:Hlt; lia.
Qed.

End StoreBestFacts.

Section WorkedIndividuals.
Import Examples.

(** The first read of an uncomputed fitness computes it; the second returns
    the same value from the cache although the objective function would by
    then answer differently. *)
Lemma fitness_read_twice_one_call_witness :
  heap one_fresh !! 0%nat = Some (indiv [3; 4] [3; 4])
  /\ exists (v : Z) (w1 : World Z),
       fitness (H := drifting_objective) 0%nat one_fresh = (Ok v, w1)
       /\ calls w1 = [0%nat]
       /\ fitness (H := drifting_objective) 0%nat w1 = (Ok v, w1).
Proof.
  split; [reflexivity |].
  destruct (fitness_read_twice_one_call (H := drifting_objective)
              one_fresh 0%nat (indiv [3; 4] [3; 4]) eq_refl)
    as (v & w1 & i1 & Hf & Hcalls & _ & _ & _ & _ & Hagain & _).
  exists v, w1. auto.
Defined.

(** C8, as stated, fails: an individual built on [10] and then given [1]
    stores the candidate's [5] as its best, which scores less than the [10]
    it replaces. *)
Lemma store_best_replaces_best_by_worse :
  ~ StoreBest.keeps_the_higher (H := sum_objective) total moved_on 0%nat 1%nat.
Proof.
  intros Hk.
  destruct (Hk (indiv [1] [10]) (indiv [5] [5])
               (mkIndiv 0%nat [1] [0] None 1 true [5] false)
               (mkWorld [mkIndiv 0%nat [1] [0] None 1 true [5] false;
                         mkIndiv 0%nat [5] [0] None 5 true [5] false]
                        [0%nat; 1%nat] tt)
               eq_refl eq_refl eq_refl eq_refl) as [_ Hle].
  vm_compute in Hle. now apply Hle.
Qed.

End WorkedIndividuals.

Section Construction.
Import ObjectiveFunc.

(** C9.  Constructing an [ObjectiveFunc] with a mode other than ['max'] and
    ['min'] raises [ValueError]: the constructor returns no object, whatever
    the other arguments, and no mode is put in place of the one given. *)
Theorem init_rejects_unknown_mode (mode name : string) (vectorized recalculate : bool) :
  mode <> "max" -> mode <> "min" ->
  __init__ mode name vectorized recalculate
    = Raise (ValueError "Optimization objective (mode) must be 'min' or 'max'.")
  /\ forall o : ObjectiveFunc, __init__ mode name vectorized recalculate <> Ok o.
Proof.
  intros Hmax Hmin.
  assert (Hin : mode ∉ ["max"; "min"]).
  { intros Hin. apply list_elem_of_In in Hin. cbn in Hin. intuition congruence. }
  unfold __init__. rewrite (bool_decide_eq_true_2 _ Hin).
  split; [reflexivity | discriminate].
Qed.

Lemma init_rejects_unknown_mode_witness :
  __init__ "maximize" "sphere" false false
    = Raise (ValueError "Optimization objective (mode) must be 'min' or 'max'.")
  /\ forall o : ObjectiveFunc, __init__ "maximize" "sphere" false false <> Ok o.
Proof.
  apply (init_rejects_unknown_mode "maximize" "sphere" false false).
  - intros Heq. discriminate Heq.
  - intros Heq. discriminate Heq.
Defined.

(** The two modes the constructor accepts, and the factor it derives. *)
Lemma init_accepts_max_and_min (name : string) (vectorized recalculate : bool) :
  __init__ "max" name vectorized recalculate
    = Ok (mkObjectiveFunc name 0 1 vectorized recalculate "max")
  /\ __init__ "min" name vectorized recalculate
    = Ok (mkObjectiveFunc name 0 (-1) vectorized recalculate "min").
Proof. split; reflexivity. Qed.

End Construction.

Section Reproduce.
Context {E : Type} `{Externals E}.

Lemma load_new_vector (w : World E) :
  load_global Individual.module_globals "new_vector" w
  = (Raise (NameError "new_vector"), w).
Proof. reflexivity. Qed.

Lemma load_Indiv (w : World E) :
  load_global Individual.module_globals "Indiv" w = (Ok (PClass "Indiv"), w).
Proof. reflexivity. Qed.

Lemma load_np (w : World E) :
  load_global Individual.module_globals "np" w = (Raise (NameError "np"), w).
Proof. reflexivity. Qed.

(** C6.  [reproduce] never returns: every call ends in an exception.  When
    the operator returns an individual, that individual is given its repaired
    genotype through the setter (which also clears its cache flag), and the
    method then raises [NameError] on [new_vector], a name bound nowhere. *)
Theorem reproduce_raises (w : World E) (self : ref) (population : list ref) :
  (exists (e : exn) (w' : World E),
     reproduce Individual.module_globals self population w = (Raise e, w'))
  /\ forall (s s1 n : Indiv) (op : handle) (r : ref) (w1 : World E),
       heap w !! self = Some s ->
       operator s = Some op ->
       operator_call op self population (Individual.objfunc s) w = (Ok r, w1) ->
       heap w1 !! self = Some s1 ->
       heap w1 !! r = Some n ->
       reproduce Individual.module_globals self population w
       = (Raise (NameError "new_vector"),
          mkWorld (<[r := set__genotype
                            (repair_solution (Individual.objfunc s1) (_genotype n))
                            (set_fitness_calculated false n)]> (heap w1))
                  (calls w1) (ext w1)).
Proof.
  split.
  - unfold reproduce, bind.
    destruct (deref self w) as [[s |] w0]; [| eauto].
    destruct (operator s) as [op |]; cbn; [| eauto].
    destruct (operator_call op self population (Individual.objfunc s) w0)
      as [[r |] w1]; [| eauto].
    destruct (deref self w1) as [[s1 |] w2]; [| eauto].
    destruct (genotype r w2) as [[g |] w3]; [| eauto].
    destruct (genotype_setter r _ w3) as [[u |] w4]; [| eauto].
    rewrite load_Indiv.
    destruct (deref self w4) as [[s4 |] w5]; [| eauto].
    rewrite load_new_vector. eauto.
  - intros s s1 n op r w1 Hs Hop Hcall Hs1 Hn.
    unfold reproduce, bind.
    rewrite (deref_Some _ _ _ Hs), Hop. cbn. rewrite Hcall.
    rewrite (deref_Some _ _ _ Hs1).
    unfold genotype, bind. rewrite (deref_Some _ _ _ Hn). cbn.
    rewrite (genotype_setter_Some _ _ _ _ Hn), load_Indiv.
    destruct (lookup_lt_is_Some_2 (<[r := set__genotype
                (repair_solution (Individual.objfunc s1) (_genotype n))
                (set_fitness_calculated false n)]> (heap w1)) self) as [s4 Hs4].
    { rewrite length_insert. eapply lookup_lt_Some, Hs1. }
    erewrite deref_Some by (cbn; exact Hs4).
    now rewrite load_new_vector.
Qed.

End Reproduce.

Section ReproduceWorked.
Import Examples.

(** An individual whose operator hands it back: [reproduce] raises, and
    leaves the individual itself with a clipped genotype and a cleared cache
    flag. *)
Lemma reproduce_raises_witness :
  reproduce (H := sum_objective) Individual.module_globals 0%nat [0%nat] evaluated_once
  = (Raise (NameError "new_vector"),
     mkWorld [mkIndiv 0%nat [100] [0] (Some 7%nat) 150 false [150] false]
             [0%nat] tt).
Proof.
  exact (proj2 (reproduce_raises (H := sum_objective) evaluated_once 0%nat [0%nat])
               _ _ _ 7%nat 0%nat evaluated_once
               eq_refl eq_refl eq_refl eq_refl eq_refl).
Defined.

End ReproduceWorked.

Section Split.
Import OperatorSplit.
Context {E : Type}.

Lemma load_op_list (w : World E) :
  load_global (W := World E) (@OperatorSplit.module_globals E) "op_list" w
  = (Raise (NameError "op_list"), w).
Proof. reflexivity. Qed.

(** One round of the loop: the operator's values at the positions of its
    group are written into the genotype of the individual that was passed in,
    and nothing else of that individual changes. *)
Lemma evolve_round_writes_in_place (self : OperatorSplit E)
    (indiv : ref) (population : list ref) (objfunc : handle)
    (global_best : option ref) (idx : nat) (op : Operator E)
    (w w1 : World E) (aux : ref) (a i : Indiv) :
  evolve_of op indiv population objfunc global_best w = (Ok aux, w1) ->
  heap w1 !! aux = Some a ->
  heap w1 !! indiv = Some i ->
  length (_genotype a) = length (mask self) ->
  length (_genotype i) = length (mask self) ->
  evolve_round self indiv population objfunc global_best idx op w
  = (Ok tt,
     mkWorld (<[indiv := set__genotype
                  (Np.scatter (_genotype i) (mask_eq (mask self) idx)
                     (Np.select (_genotype a) (mask_eq (mask self) idx))) i]>
                (heap w1))
             (calls w1) (ext w1)).
Proof.
  intros Hop Ha Hi Hla Hli. unfold evolve_round, bind. rewrite Hop.
  unfold genotype, bind. rewrite (deref_Some _ _ _ Ha). cbn.
  unfold lift, Np.getitem_mask.
  assert (Hm : length (mask_eq (mask self) idx) = length (mask self))
    by (unfold mask_eq; apply length_map).
  rewrite decide_True by congruence.
  rewrite (deref_Some _ _ _ Hi). cbn.
  unfold Np.setitem_mask. rewrite decide_True by congruence.
  rewrite decide_True.
  - now rewrite (setattr_Some _ _ _ _ Hi).
  - clear - Hla Hm. rewrite <- Hm in Hla. unfold Np.count_nonzero.
    revert Hla. generalize (mask_eq (mask self) idx) as m.
    generalize (_genotype a) as g.
    induction g as [| x g IH]; intros [| b m] Hlen; try discriminate; [reflexivity |].
    cbn in Hlen. injection Hlen as Hlen. cbn.
    destruct b; cbn.
    + rewrite decide_True by reflexivity. cbn. f_equal. now apply IH.
    + rewrite decide_False by discriminate. now apply IH.
Qed.

(** C5.  [OperatorSplit.evolve] returns no genotype: every call raises
    [NameError] on [op_list] before any operator is run (so the world is as
    it was).  The loop it was to run writes into the genotype of the
    individual passed in: after a round that individual holds the operator's
    values at the group's positions. *)
Theorem evolve_raises_NameError (self : OperatorSplit E) (indiv : ref)
    (population : list ref) (objfunc : handle) (global_best : option ref)
    (w : World E) :
  evolve OperatorSplit.module_globals self indiv population objfunc global_best w
  = (Raise (NameError "op_list"), w)
  /\ forall (idx : nat) (op : Operator E) (w1 : World E) (aux : ref) (a i : Indiv),
       evolve_of op indiv population objfunc global_best w = (Ok aux, w1) ->
       heap w1 !! aux = Some a ->
       heap w1 !! indiv = Some i ->
       length (_genotype a) = length (mask self) ->
       length (_genotype i) = length (mask self) ->
       exists w2 : World E,
         evolve_round self indiv population objfunc global_best idx op w = (Ok tt, w2)
         /\ (_genotype <$> heap w2 !! indiv)
            = Some (Np.scatter (_genotype i) (mask_eq (mask self) idx)
                      (Np.select (_genotype a) (mask_eq (mask self) idx))).
Proof.
  split.
  - unfold evolve, bind. now rewrite load_op_list.
  - intros idx op w1 aux a i Hop Ha Hi Hla Hli. eexists. split.
    + eapply evolve_round_writes_in_place; eassumption.
    + cbn. erewrite heap_insert_eq by exact Hi. reflexivity.
Qed.

End Split.

Section SplitWorked.
Import OperatorSplit Examples.

(** C3.  For two operators and the mask [0,1,0,1], [evolve] raises
    [NameError]; it returns no genotype.  And the loop of the method is a
    pipeline: on [1,2,3,4], with a first operator adding ten and a second
    filling with the sum, the second operator is run on [11,2,13,4], the
    individual as the first round left it; positions 1 and 3 end up holding
    30, where the second operator's result on the original individual is 10. *)
Theorem evolve_0101_raises_and_loop_is_a_pipeline :
  (forall (op0 op1 : Operator unit) (indiv : ref) (population : list ref)
          (objfunc : handle) (global_best : option ref) (w : World unit),
      evolve OperatorSplit.module_globals
             (OperatorSplit.__init__ [op0; op1] [0; 1; 0; 1] None)
             indiv population objfunc global_best w
      = (Raise (NameError "op_list"), w))
  /\ (exists w' : World unit,
        evolve_loop split_0101 0%nat [0%nat] 0%nat None 0 (op_list split_0101) four_dim
        = (Ok tt, w')
        /\ (_genotype <$> heap w' !! 0%nat) = Some [11; 30; 13; 30])
  /\ (exists (aux : ref) (w' : World unit),
        evolve_of fill_total 0%nat [0%nat] 0%nat None four_dim = (Ok aux, w')
        /\ (_genotype <$> heap w' !! aux) = Some [10; 10; 10; 10]).
Proof.
  split; [| split].
  - intros. unfold evolve, bind. now rewrite load_op_list.
  - eexists. split; vm_compute; reflexivity.
  - eexists _, _. split; vm_compute; reflexivity.
Qed.

Lemma evolve_raises_NameError_witness :
  exists w2 : World unit,
    evolve_round split_0101 0%nat [0%nat] 0%nat None 0 add_ten four_dim = (Ok tt, w2)
    /\ (_genotype <$> heap w2 !! 0%nat) = Some [11; 2; 13; 4].
Proof.
  exact (proj2 (evolve_raises_NameError split_0101 0%nat [0%nat] 0%nat None four_dim)
               0%nat add_ten _ 1%nat _ _ eq_refl eq_refl eq_refl eq_refl eq_refl).
Defined.

End SplitWorked.

Section Sorted.
Context {A : Type}.

Lemma insert_reverse_head (x : Z * A) (l : list (Z * A)) :
  head (insert_reverse x l)
  = match head l with
    | Some y => if fst x <? fst y then Some y else Some x
    | None => Some x
    end.
Proof. destruct l as [| y l]; cbn; [reflexivity |]. now destruct (fst x <? fst y). Qed.

(** The first element of [sorted(..., reverse=True)]: a key that no key
    exceeds, at the earliest position where that key occurs. *)
Lemma sorted_reverse_head_earliest_max (l : list (Z * A)) :
  l <> [] ->
  exists (i : nat) (k : Z) (b : A),
    head (foldr insert_reverse [] l) = Some (k, b)
    /\ l !! i = Some (k, b)
    /\ (forall (j : nat) (k' : Z) (b' : A), l !! j = Some (k', b') -> k' <= k)
    /\ (forall (j : nat) (k' : Z) (b' : A),
          (j < i)%nat -> l !! j = Some (k', b') -> k' < k).
Proof.
  induction l as [| [kx x] l IH]; [congruence |]. intros _.
  destruct l as [| y l'].
  - exists 0%nat, kx, x. cbn. split; [reflexivity |]. split; [reflexivity |]. split.
    + intros [| j] k' b' Hj; cbn in Hj; [injection Hj as <- <-; lia | discriminate].
    + intros j k' b' Hlt. lia.
  - destruct IH as (i & k & b & Hhd & Hi & Hmax & Hfirst); [congruence |].
    change (foldr insert_reverse [] ((kx, x) :: y :: l'))
      with (insert_reverse (kx, x) (foldr insert_reverse [] (y :: l'))).
    rewrite insert_reverse_head, Hhd. cbn [fst].
    destruct (kx <? k) eqn:Hlt.
    + apply Z.ltb_lt in Hlt. exists (S i), k, b.
      split; [reflexivity |]. split; [exact Hi |]. split.
      * intros [| j] k' b' Hj; cbn in Hj; [injection Hj as <- <-; lia | eauto].
      * intros [| j] k' b' Hji Hj; cbn in Hj; [injection Hj as <- <-; lia |].
        eapply Hfirst; [| exact Hj]. lia.
    + apply Z.ltb_ge in Hlt. exists 0%nat, kx, x.
      split; [reflexivity |]. split; [reflexivity |]. split.
      * intros [| j] k' b' Hj; cbn in Hj; [injection Hj as <- <-; lia |].
        specialize (Hmax _ _ _ Hj). lia.
      * intros j k' b' Hj0. lia.
Qed.

End Sorted.

Section ESFacts.
Context {E : Type} `{Externals E} `{ES.Collaborators E}.

Lemma mapM_fitness_ok (pop : list ref) (w : World E) :
  Forall (fun r => (r < length (heap w))%nat) pop ->
  exists (keys : list Z) (w' : World E),
    mapM fitness pop w = (Ok keys, w')
    /\ length keys = length pop
    /\ length (heap w') = length (heap w).
Proof.
  revert w. induction pop as [| r pop IH]; intros w Hall.
  - exists [], w. repeat split.
  - apply Forall_cons in Hall as [Hr Hall].
    destruct (lookup_lt_is_Some_2 _ _ Hr) as [i Hi].
    cbn [mapM]. unfold bind at 1. rewrite (fitness_run _ _ _ Hi).
    set (w1 := mkWorld _ _ _).
    assert (Hlen : length (heap w1) = length (heap w)) by apply length_insert.
    destruct (IH w1) as (keys & w' & Hrun & Hk & Hh).
    { rewrite Hlen. exact Hall. }
    unfold bind. rewrite Hrun. eexists _, _. split; [reflexivity |].
    cbn. split; [now rewrite Hk | congruence].
Qed.

(** C2.  On every non-empty population [best_solution] raises
    [AttributeError]: after sorting the individuals by fitness and reading the
    fitness of the first, it asks that individual for [vector], an attribute
    [Indiv] does not have.  No pair is returned. *)
Theorem best_solution_raises_AttributeError
    (self : ES.ES) (pop : list ref) (w : World E) :
  ES.population self = Some pop ->
  pop <> [] ->
  Forall (fun r => (r < length (heap w))%nat) pop ->
  exists w' : World E,
    ES.best_solution self w = (Raise (AttributeError "vector"), w').
Proof.
  intros Hpop Hne Hall. unfold ES.best_solution, ES.get_population.
  rewrite Hpop. unfold bind at 1. cbn [ret].
  destruct (mapM_fitness_ok pop w Hall) as (keys & w1 & Hrun & Hk & Hh).
  unfold bind at 1. rewrite Hrun.
  destruct (sorted_reverse_head_earliest_max (zip keys pop))
    as (i & k & b & Hhd & Hi & _).
  { destruct pop, keys; cbn in *; congruence. }
  unfold sorted_reverse.
  destruct (foldr insert_reverse [] (zip keys pop)) as [| kb rest]; [discriminate |].
  cbn in Hhd. injection Hhd as ->. cbn [map snd]. unfold bind at 1. cbn [ret].
  assert (Hb : (b < length (heap w1))%nat).
  { rewrite Hh. apply lookup_zip_with_Some in Hi as (k0 & b0 & Heq & _ & Hb0).
    injection Heq as -> ->.
    rewrite Forall_forall in Hall. apply Hall. eapply list_elem_of_lookup_2, Hb0. }
  destruct (lookup_lt_is_Some_2 _ _ Hb) as [ib Hib].
  unfold bind at 1. rewrite (fitness_run _ _ _ Hib).
  eexists. reflexivity.
Qed.

Lemma random_choice_ok (seq : list ref) (w : World E) :
  seq <> [] ->
  exists r : ref,
    ES.random_choice seq w
    = (Ok r, mkWorld (heap w) (calls w) (snd (ES.randbelow (length seq) (ext w)))).
Proof.
  intros Hne. unfold ES.random_choice. destruct seq as [| r0 seq]; [congruence |].
  destruct (ES.randbelow (length (r0 :: seq)) (ext w)) as [k e'] eqn:Hk. cbn [snd].
  destruct (lookup_lt_is_Some_2 (r0 :: seq) (k mod length (r0 :: seq))%nat)
    as [r Hr].
  { apply Nat.mod_upper_bound. cbn. lia. }
  rewrite Hr. now exists r.
Qed.

(** With [np] bound to numpy, the constructor builds the individual. *)
Lemma init_without_speed (G : gmap string (pyobj (list Z)))
    (objfunc : handle) (vector : list Z) (w : World E) :
  G !! "np" = Some (PModule "numpy") ->
  Individual.__init__ G objfunc vector None None w
  = (Ok (length (heap w)),
     mkWorld (heap w ++ [mkIndiv objfunc vector (replicate (length vector) 0)
                                 None 0 false vector false])
             (calls w) (ext w)).
Proof.
  intros Hnp. unfold Individual.__init__, bind, load_global. now rewrite Hnp.
Qed.

(** With the module as it is written, the constructor needs a [speed]. *)
Lemma init_without_speed_raises (objfunc : handle) (vector : list Z) (w : World E) :
  Individual.__init__ Individual.module_globals objfunc vector None None w
  = (Raise (NameError "np"), w).
Proof. reflexivity. Qed.

Section Operators.
Variable G : gmap string (pyobj (list Z)).
Hypothesis numpy_bound : G !! "np" = Some (PModule "numpy").
Hypothesis cross_returns :
  forall (op : handle) (r : ref) (l : list ref) (h : handle) (w : World E),
  exists (v : list Z) (w' : World E), ES.cross_evolve op r l h w = (Ok v, w').
Hypothesis mutation_returns :
  forall (op : handle) (r : ref) (l : list ref) (h : handle) (w : World E),
  exists (v : list Z) (w' : World E), ES.mutation_call op r l h w = (Ok v, w').

Lemma perturb_round_ok (self : ES.ES) (pop parent_list offspring : list ref)
    (w : World E) :
  ES.population self = Some pop ->
  parent_list <> [] ->
  exists (new_ind : ref) (w' : World E),
    ES.perturb_round G self parent_list offspring w
    = (Ok (offspring ++ [new_ind]), w').
Proof.
  intros Hpop Hne. unfold ES.perturb_round.
  destruct (random_choice_ok parent_list w Hne) as [parent1 Hch].
  unfold bind at 1. rewrite Hch.
  set (w1 := mkWorld _ _ _).
  destruct (cross_returns (ES.cross_op self) parent1 parent_list (ES.objfunc self) w1)
    as (v & w2 & Hcross).
  unfold bind at 1. rewrite Hcross.
  unfold bind at 1. rewrite (init_without_speed _ _ _ _ numpy_bound).
  set (w3 := mkWorld _ _ _).
  unfold ES.get_population. rewrite Hpop. unfold bind at 1. cbn [ret].
  destruct (mutation_returns (ES.mutation_op self) (length (heap w2)) pop
              (ES.objfunc self) w3) as (v' & w4 & Hmut).
  unfold bind at 1. rewrite Hmut.
  unfold bind. rewrite (init_without_speed _ _ _ _ numpy_bound).
  eexists _, _. reflexivity.
Qed.

Lemma perturb_loop_ok (self : ES.ES) (pop parent_list : list ref) (fuel : nat) :
  ES.population self = Some pop ->
  parent_list <> [] ->
  forall (offspring : list ref) (w : World E),
    (length offspring + fuel = Z.to_nat (ES.size self))%nat ->
    exists (offspring' : list ref) (w' : World E),
      ES.perturb_loop G fuel self parent_list offspring w = (Ok (Some offspring'), w')
      /\ length offspring' = Z.to_nat (ES.size self).
Proof.
  intros Hpop Hne. induction fuel as [| fuel IH]; intros offspring w Hlen.
  - cbn [ES.perturb_loop].
    replace (Z.of_nat (length offspring) <? ES.size self) with false
      by (symmetry; apply Z.ltb_ge; lia).
    exists offspring, w. split; [reflexivity | lia].
  - cbn [ES.perturb_loop].
    replace (Z.of_nat (length offspring) <? ES.size self) with true
      by (symmetry; apply Z.ltb_lt; lia).
    destruct (perturb_round_ok self pop parent_list offspring w Hpop Hne)
      as (new_ind & w1 & Hround).
    unfold bind. rewrite Hround. apply IH. rewrite length_app. cbn. lia.
Qed.

(** With numpy bound and operators that return, [perturb] returns as many
    offspring as [size] says, whatever [n_offspring] is. *)
Lemma perturb_returns_size_offspring (self : ES.ES) (pop parent_list : list ref)
    (w : World E) :
  ES.population self = Some pop ->
  parent_list <> [] ->
  exists (offspring : list ref) (w' : World E),
    ES.perturb G self parent_list w = (Ok (Some offspring), w')
    /\ length offspring = Z.to_nat (ES.size self).
Proof.
  intros Hpop Hne. unfold ES.perturb.
  eapply perturb_loop_ok; [eassumption | assumption | reflexivity].
Qed.

End Operators.

(** With Individual.py as it is written, [perturb] returns no offspring
    whenever it has one to produce: the first individual it builds has no
    [speed], and building it raises [NameError] on [np]. *)
Lemma perturb_raises_NameError (self : ES.ES) (parent_list : list ref) (w : World E) :
  0 < ES.size self ->
  parent_list <> [] ->
  (forall (op : handle) (r : ref) (l : list ref) (h : handle) (w : World E),
   exists (v : list Z) (w' : World E), ES.cross_evolve op r l h w = (Ok v, w')) ->
  exists w' : World E,
    ES.perturb Individual.module_globals self parent_list w
    = (Raise (NameError "np"), w').
Proof.
  intros Hsize Hne Hcross. unfold ES.perturb.
  destruct (Z.to_nat (ES.size self)) as [| fuel] eqn:Hfuel; [lia |].
  cbn [ES.perturb_loop]. cbn [length].
  replace (Z.of_nat 0 <? ES.size self) with true by (symmetry; apply Z.ltb_lt; lia).
  unfold ES.perturb_round.
  destruct (random_choice_ok parent_list w Hne) as [parent1 Hch].
  unfold bind at 1. unfold bind at 1. rewrite Hch.
  set (w1 := mkWorld _ _ _).
  destruct (Hcross (ES.cross_op self) parent1 parent_list (ES.objfunc self) w1)
    as (v & w2 & Hc).
  unfold bind at 1. rewrite Hc.
  unfold bind at 1. rewrite init_without_speed_raises. eauto.
Qed.

End ESFacts.

Section ESWorked.
Import Examples.

Lemma best_solution_raises_AttributeError_witness :
  exists w' : World unit,
    ES.best_solution (H := sum_objective) (H0 := plain_operators) of_three three_scored
    = (Raise (AttributeError "vector"), w').
Proof.
  apply (best_solution_raises_AttributeError (H := sum_objective)
           (H0 := plain_operators) of_three [0%nat; 1%nat; 2%nat] three_scored).
  - reflexivity.
  - intros Hnil. discriminate Hnil.
  - repeat constructor.
Defined.

(** What lines 38 to 41 of [best_solution] have in hand before the attribute
    is asked for: of the two individuals of fitness 7, the earlier one. *)
Lemma sorted_picks_the_earlier_of_equals :
  sorted_reverse (zip [1; 7; 7] [0%nat; 1%nat; 2%nat]) = [1%nat; 2%nat; 0%nat].
Proof. reflexivity. Qed.

(** C4.  An [ES] configured with [popSize] 2 and [offspringSize] 3 has
    [n_offspring] 3.  Its [perturb], on one parent, returns no offspring: it
    raises [NameError] when it builds the first individual, numpy not being
    imported by Individual.py.  With that import in place it returns 2
    offspring, the population size, and not the 3 configured. *)
Theorem perturb_ignores_offspringSize :
  ES.size two_and_three = 2
  /\ ES.n_offspring two_and_three = 3
  /\ (exists w' : World unit,
        ES.perturb (H0 := plain_operators)
                   Individual.module_globals two_and_three [0%nat] fresh_pair
        = (Raise (NameError "np"), w'))
  /\ (exists (offspring : list ref) (w' : World unit),
        ES.perturb (H0 := plain_operators)
                   with_numpy two_and_three [0%nat] fresh_pair
        = (Ok (Some offspring), w')
        /\ length offspring = 2%nat).
Proof.
  split; [reflexivity |]. split; [reflexivity |]. split.
  - eexists. vm_compute. reflexivity.
  - eexists _, _. split; vm_compute; reflexivity.
Qed.

End ESWorked.

Section Arrays.

Lemma lookup_map {A B : Type} (f : A -> B) (l : list A) (i : nat) :
  map f l !! i = f <$> l !! i.
Proof.
  revert i. induction l as [| x l IH]; intros [| i]; cbn; auto.
Qed.

Lemma Forall_map_const {A B : Type} (P : B -> Prop) (f : A -> B) (l : list A) :
  (forall x : A, P (f x)) -> Forall P (map f l).
Proof. intros Hf. induction l as [| x l IH]; cbn; constructor; auto. Qed.

Lemma select_length {A : Type} (a : list A) (m : list bool) :
  length m = length a -> length (Np.select a m) = Np.count_nonzero m.
Proof.
  unfold Np.count_nonzero. revert m.
  induction a as [| x a IH]; intros [| b m] Hlen; try discriminate; [reflexivity |].
  cbn in Hlen. injection Hlen as Hlen. cbn. destruct b; cbn.
  - rewrite decide_True by reflexivity. cbn. f_equal. now apply IH.
  - rewrite decide_False by discriminate. now apply IH.
Qed.

(** Writing back, through a mask, values computed from the entries the same
    mask selected: each selected position gets the value of its own entry. *)
Lemma scatter_select_lookup {A B : Type} (g : A -> B) (a : list B) (s : list A)
    (m : list bool) (i : nat) (x : A) :
  length m = length a -> length s = length a ->
  m !! i = Some true -> s !! i = Some x ->
  Np.scatter a m (map g (Np.select s m)) !! i = Some (g x).
Proof.
  revert s m i.
  induction a as [| y a IH]; intros [| z s] [| b m] i Hm Hs Hmi Hsi;
    try discriminate.
  cbn in Hm, Hs. injection Hm as Hm. injection Hs as Hs.
  destruct i as [| i]; cbn in Hmi, Hsi.
  - injection Hmi as ->. injection Hsi as ->. reflexivity.
  - destruct b; cbn; now apply IH.
Qed.

Lemma select_all {A : Type} (a : list A) (m : list bool) :
  length m = length a -> Forall (fun b => b = true) m -> Np.select a m = a.
Proof.
  revert m. induction a as [| x a IH]; intros [| b m] Hlen Hall; try discriminate;
    [reflexivity |].
  apply Forall_cons in Hall as [-> Hall]. cbn. f_equal. apply IH; [| exact Hall].
  cbn in Hlen. congruence.
Qed.

(** The entries of a zip that pass a test on the second component are the
    entries of the first list selected by that test. *)
Lemma filter_zip_select {A : Type} (t : Z -> bool) (a : list A) (c : list Z) :
  length a = length c ->
  (filter (fun sc => t sc.2 = true) (zip a c)).*1 = Np.select a (map t c).
Proof.
  revert c. induction a as [| x a IH]; intros [| y c] Hlen; try discriminate;
    [reflexivity |].
  cbn in Hlen. injection Hlen as Hlen.
  change (zip (x :: a) (y :: c)) with ((x, y) :: zip a c).
  rewrite filter_cons. cbn [snd map Np.select]. destruct (t y) eqn:Hy.
  - rewrite decide_True by reflexivity. cbn. f_equal. now apply IH.
  - rewrite decide_False by discriminate. now apply IH.
Qed.

End Arrays.

Section FitnessFacts.
Import ObjectiveFunc Fitness.
Context {Sol : Type} `{Problem Sol}.

Lemma built_factor (o : ObjectiveFunc) :
  built o -> factor o = (if String.eqb (mode o) "min" then -1 else 1).
Proof.
  unfold built, ObjectiveFunc.__init__. case_bool_decide; [discriminate |].
  intros [= Hf]. now rewrite <- Hf.
Qed.

(** The loop of the branch that is not vectorized, run from index [idx] on
    the pairs still to visit. *)
Lemma fitness_loop_run (adjusted : bool) (pairs : list (Sol * Z)) :
  forall (idx : nat) (st : State Sol),
    (idx + length pairs <= length (fitness_of (population st)))%nat ->
    fitness_loop adjusted idx pairs st
    = (Ok tt,
       mkState (self st)
         (mkPopulation (pop_size (population st))
            (written (self st) adjusted idx pairs (fitness_of (population st)))
            (fitness_calculated (population st))
            (decode (population st)))
         (evaluated st
          ++ (filter (fun sc => recalculate (self st) || (sc.2 =? 0) = true) pairs).*1)).
Proof.
  induction pairs as [| [s c] pairs IH]; intros idx st Hlen.
  - cbn. rewrite app_nil_r. now destruct st as [o [n f fc d] ev].
  - cbn [fitness_loop written]. rewrite filter_cons. cbn [snd].
    cbn [length] in Hlen. unfold bind at 1. unfold get at 1.
    destruct (recalculate (self st) || (c =? 0)) eqn:Hc.
    + rewrite decide_True by reflexivity.
      unfold bind at 1. unfold bind at 1. unfold call_objective at 1.
      unfold bind at 1. unfold get at 1. unfold bind at 1.
      unfold lift, Np.setitem. cbn [population fitness_of].
      rewrite decide_True by lia. unfold set_fitness_of at 1.
      rewrite IH by (cbn; rewrite length_insert; lia).
      cbn. unfold value_of. now rewrite <- app_assoc.
    + rewrite decide_False by discriminate.
      unfold bind at 1. cbn [ret]. rewrite IH by lia. reflexivity.
Qed.

Lemma written_length (o : ObjectiveFunc) (adjusted : bool) (pairs : list (Sol * Z)) :
  forall (idx : nat) (f : list Z),
    length (written o adjusted idx pairs f) = length f.
Proof.
  induction pairs as [| [s c] pairs IH]; intros idx f; [reflexivity |].
  cbn. rewrite IH. destruct (recalculate o || (c =? 0)); [apply length_insert | reflexivity].
Qed.

Lemma written_below (o : ObjectiveFunc) (adjusted : bool) (pairs : list (Sol * Z)) :
  forall (idx i : nat) (f : list Z),
    (i < idx)%nat -> written o adjusted idx pairs f !! i = f !! i.
Proof.
  induction pairs as [| [s c] pairs IH]; intros idx i f Hlt; [reflexivity |].
  cbn. rewrite IH by lia.
  destruct (recalculate o || (c =? 0)); [| reflexivity].
  apply list_lookup_insert_ne. lia.
Qed.

(** What the loop leaves at the position of the [k]-th pair it visits. *)
Lemma written_at (o : ObjectiveFunc) (adjusted : bool) (pairs : list (Sol * Z)) :
  forall (idx k : nat) (f : list Z) (s : Sol) (c : Z),
    pairs !! k = Some (s, c) ->
    (idx + k < length f)%nat ->
    written o adjusted idx pairs f !! (idx + k)%nat
    = if recalculate o || (c =? 0) then Some (value_of o adjusted s)
      else f !! (idx + k)%nat.
Proof.
  induction pairs as [| [s0 c0] pairs IH]; intros idx k f s c Hk Hlen;
    [discriminate |].
  destruct k as [| k]; cbn in Hk.
  - injection Hk as -> ->. cbn [written]. rewrite Nat.add_0_r in *.
    rewrite written_below by lia.
    destruct (recalculate o || (c =? 0)); [| reflexivity].
    now apply list_lookup_insert_eq.
  - cbn [written]. replace (idx + S k)%nat with (S idx + k)%nat by lia.
    rewrite (IH (S idx) k _ s c Hk).
    + destruct (recalculate o || (c =? 0)); [reflexivity |].
      destruct (recalculate o || (c0 =? 0)); [| reflexivity].
      apply list_lookup_insert_ne. lia.
    + destruct (recalculate o || (c0 =? 0)); [rewrite length_insert |]; lia.
Qed.

Lemma sub_pointwise (l : list Sol) :
  batch_pointwise ->
  Np.sub (objective_batch l) (penalize_batch l)
  = Ok (map (fun s => objective s - penalize s) l).
Proof.
  intros [Hobj Hpen]. rewrite Hobj.
  destruct (Hpen l) as [-> | (c & -> & Hc)]; unfold Np.sub.
  - rewrite decide_True by now rewrite !length_map.
    f_equal. induction l as [| s l IH]; [reflexivity |]. cbn. now rewrite IH.
  - f_equal. induction Hc as [| s l Hs Hc IH]; [reflexivity |].
    cbn. now rewrite IH, Hs.
Qed.

(** The vectorized branch on a population whose arrays have one length. *)
Lemma fitness_vectorized_run (adjusted : bool) (st : State Sol) :
  length (decode (population st)) = length (fitness_calculated (population st)) ->
  length (fitness_of (population st)) = length (fitness_calculated (population st)) ->
  batch_pointwise ->
  let o := self st in
  let p := population st in
  let todo := not_calculated (fitness_calculated p) in
  fitness_vectorized adjusted st
  = if recalculate o
    then (Ok (Np.scatter (fitness_of p) todo
                (map (value_of o adjusted) (Np.select (decode p) todo))),
          mkState o
            (mkPopulation (pop_size p)
               (Np.scatter (fitness_of p) todo
                  (map (value_of o adjusted) (Np.select (decode p) todo)))
               (fitness_calculated p) (decode p))
            (evaluated st ++ Np.select (decode p) todo))
    else (Ok (map (value_of o adjusted) (decode p)),
          mkState o p (evaluated st ++ decode p)).
Proof.
  intros Hd Hf Hb o p todo. unfold fitness_vectorized.
  change (length (decode p) = length (fitness_calculated p)) in Hd.
  change (length (fitness_of p) = length (fitness_calculated p)) in Hf.
  unfold bind at 1. unfold get at 1. fold o p todo.
  assert (Htodo : length todo = length (fitness_calculated p))
    by (unfold todo, not_calculated; apply length_map).
  assert (Hnew : forall l : list Sol,
             (if adjusted
              then bind (lift (Np.sub (objective_batch l) (penalize_batch l)))
                        (fun d => ret (map (Z.mul (factor o)) d))
              else ret (objective_batch l))
             = (ret (map (value_of o adjusted) l) : M (State Sol) (list Z))).
  { intros l. unfold value_of. destruct adjusted.
    - unfold bind, lift, ret. rewrite (sub_pointwise l Hb).
      now rewrite map_map.
    - now rewrite (proj1 Hb). }
  destruct (recalculate o) eqn:Hr.
  - unfold bind at 1. unfold lift at 1. unfold Np.getitem_mask.
    rewrite decide_True by congruence.
    unfold bind at 1. unfold call_objective_batch at 1.
    unfold bind at 1. rewrite Hnew. cbn [ret].
    unfold bind at 1. unfold lift, Np.setitem_mask.
    rewrite decide_True by congruence.
    rewrite decide_True.
    + reflexivity.
    + rewrite length_map. apply select_length. congruence.
  - unfold bind at 1. cbn [ret].
    unfold bind at 1. unfold call_objective_batch at 1.
    unfold bind at 1. rewrite Hnew. reflexivity.
Qed.

(** A call of [fitness] on a population whose arrays have one length: what it
    returns, the world it leaves, and the value at every position whose
    solution it evaluated. *)
Lemma fitness_run_wf (adjusted : bool) (st : State Sol) :
  let o := self st in
  let p := population st in
  length (decode p) = length (fitness_calculated p) ->
  length (fitness_of p) = length (fitness_calculated p) ->
  (vectorized o = true -> batch_pointwise) ->
  exists (res f' : list Z),
    fitness adjusted st
    = (Ok res,
       mkState
         (set_counter
            (counter o + (if recalculate o then pop_size p
                          else pop_size p - foldr Z.add 0 (fitness_calculated p)))
            o)
         (mkPopulation (pop_size p) f'
            (map (fun _ => 1) (fitness_calculated p)) (decode p))
         (evaluated st
          ++ Np.select (decode p) (map (evaluates o) (fitness_calculated p))))
    /\ forall (i : nat) (solution : Sol) (c : Z),
         decode p !! i = Some solution ->
         fitness_calculated p !! i = Some c ->
         evaluates o c = true ->
         res !! i = Some (value_of o adjusted solution).
Proof.
  intros o p Hd Hf Hb. unfold fitness.
  change (length (decode p) = length (fitness_calculated p)) in Hd.
  change (length (fitness_of p) = length (fitness_calculated p)) in Hf.
  unfold bind at 1. unfold get at 1. fold o p.
  destruct (vectorized o) eqn:Hv.
  - unfold bind at 1.
    rewrite (fitness_vectorized_run adjusted st Hd Hf (Hb eq_refl)). fold o p.
    unfold evaluates. rewrite Hv.
    destruct (recalculate o) eqn:Hr.
    + unfold bind, get, add_counter, set_fitness_calculated. cbn. fold o p.
      rewrite Hr. cbn. eexists _, _. split; [reflexivity |].
      intros i s c Hi Hc Hev.
      eapply scatter_select_lookup; try eassumption.
      * unfold not_calculated. rewrite length_map. fold p. congruence.
      * fold p. congruence.
      * unfold not_calculated. rewrite lookup_map. fold p. rewrite Hc. cbn.
        now rewrite Hev.
    + unfold bind, get, add_counter, set_fitness_calculated. cbn. fold o p.
      rewrite Hr. cbn.
      rewrite (select_all (decode p)).
      * destruct p as [n f fc d]. cbn. eexists _, _. split; [reflexivity |].
        intros i s c Hi Hc _. rewrite lookup_map. cbn in Hi. now rewrite Hi.
      * rewrite length_map. congruence.
      * apply Forall_map_const. reflexivity.
  - unfold bind at 1. unfold bind at 1.
    rewrite fitness_loop_run by (fold p; rewrite length_zip_with; lia).
    fold o p. unfold bind at 1. unfold get at 1. cbn [ret].
    unfold bind, get, add_counter, set_fitness_calculated. cbn.
    rewrite (filter_zip_select (fun c => recalculate o || (c =? 0)) _ _ Hd).
    unfold evaluates. rewrite Hv.
    eexists _, _. split.
    + destruct (recalculate o); reflexivity.
    + intros i s c Hi Hc Hev.
      assert (Hz : zip (decode p) (fitness_calculated p) !! i = Some (s, c)).
      { apply lookup_zip_with_Some. eauto. }
      pose proof (written_at o adjusted _ 0 i (fitness_of p) s c Hz) as Hw.
      cbn in Hw. rewrite Hw, Hev; [reflexivity |].
      rewrite Hf. eapply lookup_lt_Some, Hc.
Qed.

(** C7.  The base class's [penalize] returns 0 whatever it is given.  For an
    objective function as the constructor builds it, a call of [fitness] with
    [adjusted] set returns, and at the position of every solution it evaluated
    the array returned holds, in mode ['min'], the negative of the objective
    value minus the penalty, and otherwise (mode ['max']) the objective value
    minus the penalty. *)
Theorem fitness_adjusted_by_mode (st : State Sol) :
  built (self st) ->
  length (decode (population st)) = length (fitness_calculated (population st)) ->
  length (fitness_of (population st)) = length (fitness_calculated (population st)) ->
  (vectorized (self st) = true -> batch_pointwise) ->
  (forall (s : Sol) (l : list Sol),
      penalize_default s = 0 /\ penalize_batch_default l = Np.Scalar 0)
  /\ exists (res : list Z) (st' : State Sol),
       fitness true st = (Ok res, st')
       /\ forall (i : nat) (solution : Sol) (c : Z),
            decode (population st) !! i = Some solution ->
            fitness_calculated (population st) !! i = Some c ->
            evaluates (self st) c = true ->
            res !! i
            = Some (if String.eqb (mode (self st)) "min"
                    then - (objective solution - penalize solution)
                    else objective solution - penalize solution).
Proof.
  intros Hbuilt Hd Hf Hb. split; [now split |].
  destruct (fitness_run_wf true st Hd Hf Hb) as (res & f' & Hrun & Hval).
  eexists res, _. split; [exact Hrun |].
  intros i s c Hi Hc Hev. rewrite (Hval i s c Hi Hc Hev).
  unfold value_of. rewrite (built_factor _ Hbuilt).
  destruct (String.eqb (mode (self st)) "min"); f_equal; lia.
Qed.

Lemma count_not_calculated (c : list Z) :
  Forall (fun x => x = 0 \/ x = 1) c ->
  Z.of_nat (Np.count_nonzero (map (fun x => x =? 0) c))
  = Z.of_nat (length c) - foldr Z.add 0 c.
Proof.
  unfold Np.count_nonzero. induction 1 as [| x c Hx Hc IH]; [reflexivity |].
  cbn [map foldr length]. rewrite filter_cons.
  destruct Hx as [-> | ->]; cbn [Z.eqb].
  - rewrite decide_True by reflexivity. cbn [length]. lia.
  - rewrite decide_False by discriminate. lia.
Qed.

Lemma count_all (c : list Z) :
  Np.count_nonzero (map (fun _ => true) c) = length c.
Proof.
  unfold Np.count_nonzero. induction c as [| x c IH]; [reflexivity |].
  cbn [map length]. rewrite filter_cons, decide_True by reflexivity.
  cbn. now rewrite IH.
Qed.

(** What the branch that is not vectorized keeps of the counter: on a
    population of [pop_size] individuals with flags 0 or 1, the counter grows
    by the number of solutions handed to [objective], and every flag ends
    at 1. *)
Lemma fitness_loop_counts_the_evaluated (adjusted : bool) (st : State Sol) :
  vectorized (self st) = false ->
  length (decode (population st)) = length (fitness_calculated (population st)) ->
  length (fitness_of (population st)) = length (fitness_calculated (population st)) ->
  pop_size (population st) = Z.of_nat (length (fitness_calculated (population st))) ->
  Forall (fun x => x = 0 \/ x = 1) (fitness_calculated (population st)) ->
  exists (res : list Z) (st' : State Sol) (new : list Sol),
    fitness adjusted st = (Ok res, st')
    /\ Forall (fun x => x = 1) (fitness_calculated (population st'))
    /\ evaluated st' = evaluated st ++ new
    /\ counter (self st') = counter (self st) + Z.of_nat (length new)
    /\ Z.of_nat (length new)
       = (if recalculate (self st) then pop_size (population st)
          else pop_size (population st)
               - foldr Z.add 0 (fitness_calculated (population st))).
Proof.
  intros Hv Hd Hf Hn H01.
  destruct (fitness_run_wf adjusted st Hd Hf) as (res & f' & Hrun & _).
  { rewrite Hv. discriminate. }
  eexists res, _, _. split; [exact Hrun |]. cbn.
  split; [apply Forall_map_const; reflexivity |].
  split; [reflexivity |].
  assert (Hcount : Z.of_nat (length (Np.select (decode (population st))
                     (map (evaluates (self st)) (fitness_calculated (population st)))))
                   = (if recalculate (self st) then pop_size (population st)
                      else pop_size (population st)
                           - foldr Z.add 0 (fitness_calculated (population st)))).
  { rewrite select_length by (rewrite length_map; congruence).
    unfold evaluates. rewrite Hv. destruct (recalculate (self st)); cbn [orb].
    - rewrite count_all. congruence.
    - rewrite count_not_calculated by exact H01. congruence. }
  split; [| exact Hcount]. now rewrite Hcount.
Qed.

End FitnessFacts.

Section FitnessWorked.
Import ObjectiveFunc Fitness Examples.

Lemma sum_problem_pointwise : batch_pointwise (H := sum_problem).
Proof.
  split; [reflexivity |]. intros l. right. exists 0. split; [reflexivity |].
  apply Forall_forall. reflexivity.
Qed.

(** In mode ['min'], vectorized: the individual not yet calculated, whose
    solution sums to 7, gets -7. *)
Lemma fitness_adjusted_by_mode_witness :
  exists (res : list Z) (st' : State (list Z)),
    fitness (H := sum_problem) true (half_done "min" true true) = (Ok res, st')
    /\ res !! 1%nat = Some (-7).
Proof.
  destruct (fitness_adjusted_by_mode (H := sum_problem) (half_done "min" true true)
              eq_refl eq_refl eq_refl (fun _ => sum_problem_pointwise))
    as (_ & res & st' & Hrun & Hval).
  exists res, st'. split; [exact Hrun |].
  exact (Hval 1%nat [3; 4] 0 eq_refl eq_refl eq_refl).
Defined.

(** C10.  In the vectorized branch the counter does not follow the number of
    individuals evaluated.  On two individuals, the first marked as
    calculated: with [recalculate] set, one solution is handed to [objective]
    and the counter grows by 2; with [recalculate] clear, both solutions are
    handed to [objective] and the counter grows by 1.  In the branch that is
    not vectorized the two agree (2 and 2, 1 and 1).  Every flag ends at 1 in
    all four calls. *)
Theorem fitness_vectorized_counter_is_not_the_number_evaluated :
  let run := fun vectorized recalculate =>
    let out := (fitness (H := sum_problem) true
                  (half_done "max" vectorized recalculate)).2 in
    (length (evaluated out), counter (self out),
     fitness_calculated (population out)) in
  run true true = (1%nat, 2, [1; 1])
  /\ run true false = (2%nat, 1, [1; 1])
  /\ run false true = (2%nat, 2, [1; 1])
  /\ run false false = (1%nat, 1, [1; 1]).
Proof. repeat split. Qed.

End FitnessWorked.

(** * Further properties of the code *)

Section MoreArrays.

Lemma scatter_length {A : Type} (a : list A) (m : list bool) (v : list A) :
  length (Np.scatter a m v) = length a.
Proof.
  revert m v. induction a as [| x a IH]; intros [| b m] v; try reflexivity.
  destruct b; cbn.
  - destruct v as [| y v]; cbn; now rewrite IH.
  - now rewrite IH.
Qed.

(** A position the mask leaves out keeps its entry. *)
Lemma scatter_lookup_false {A : Type} (a : list A) (m : list bool) (v : list A)
    (i : nat) :
  m !! i = Some false -> Np.scatter a m v !! i = a !! i.
Proof.
  revert m v i. induction a as [| x a IH]; intros [| b m] v i Hm; try reflexivity.
  destruct i as [| i]; cbn in Hm.
  - injection Hm as ->. reflexivity.
  - destruct b; cbn; [destruct v |]; cbn; now apply IH.
Qed.

End MoreArrays.

Section FitnessMore.
Import ObjectiveFunc Fitness.
Context {Sol : Type} `{Problem Sol}.

(** A call of [fitness] on a population whose arrays have one length, in
    full: the array returned and the world left. *)
Lemma fitness_run_explicit (adjusted : bool) (st : State Sol) :
  let o := self st in
  let p := population st in
  let todo := not_calculated (fitness_calculated p) in
  let res :=
    if vectorized o
    then (if recalculate o
          then Np.scatter (fitness_of p) todo
                 (map (value_of o adjusted) (Np.select (decode p) todo))
          else map (value_of o adjusted) (decode p))
    else written o adjusted 0 (zip (decode p) (fitness_calculated p)) (fitness_of p) in
  length (decode p) = length (fitness_calculated p) ->
  length (fitness_of p) = length (fitness_calculated p) ->
  (vectorized o = true -> batch_pointwise) ->
  fitness adjusted st
  = (Ok res,
     mkState
       (set_counter
          (counter o + (if recalculate o then pop_size p
                        else pop_size p - foldr Z.add 0 (fitness_calculated p)))
          o)
       (mkPopulation (pop_size p)
          (if vectorized o && negb (recalculate o) then fitness_of p else res)
          (map (fun _ => 1) (fitness_calculated p)) (decode p))
       (evaluated st
        ++ Np.select (decode p) (map (evaluates o) (fitness_calculated p)))).
Proof.
  intros o p todo res Hd Hf Hb. subst res. unfold fitness.
  unfold bind at 1. unfold get at 1. fold o p.
  destruct (vectorized o) eqn:Hv.
  - unfold bind at 1.
    rewrite (fitness_vectorized_run adjusted st Hd Hf (Hb eq_refl)). fold o p todo.
    unfold evaluates. rewrite Hv.
    destruct (recalculate o) eqn:Hr.
    + unfold bind, get, add_counter, set_fitness_calculated. cbn. fold o p.
      rewrite Hr. reflexivity.
    + unfold bind, get, add_counter, set_fitness_calculated. cbn. fold o p.
      rewrite Hr. cbn.
      rewrite (select_all (decode p)).
      * now destruct p as [n f fc d].
      * rewrite length_map. symmetry. exact Hd.
      * apply Forall_map_const. reflexivity.
  - unfold bind at 1. unfold bind at 1.
    rewrite fitness_loop_run
      by (change (population st) with p; rewrite length_zip_with; cbn; lia).
    fold o p. unfold bind at 1. unfold get at 1. cbn [ret].
    unfold bind, get, add_counter, set_fitness_calculated. cbn.
    rewrite (filter_zip_select (fun c => recalculate o || (c =? 0)) _ _ Hd).
    unfold evaluates. rewrite Hv.
    destruct (recalculate o); reflexivity.
Qed.

(** X1.  On a population whose arrays have one length a call of [fitness]
    returns an array of that length, sets every flag to 1, adds to the counter
    [pop_size] (when [recalculate] is set) or [pop_size] minus the sum of the
    flags, and leaves the other attributes of the objective function and the
    solutions and size of the population as they were. *)
Theorem fitness_marks_all_and_keeps_the_rest (adjusted : bool) (st : State Sol) :
  length (decode (population st)) = length (fitness_calculated (population st)) ->
  length (fitness_of (population st)) = length (fitness_calculated (population st)) ->
  (vectorized (self st) = true -> batch_pointwise) ->
  exists (res : list Z) (st' : State Sol),
    fitness adjusted st = (Ok res, st')
    /\ length res = length (fitness_calculated (population st))
    /\ fitness_calculated (population st')
       = replicate (length (fitness_calculated (population st))) 1
    /\ counter (self st')
       = counter (self st)
         + (if recalculate (self st) then pop_size (population st)
            else pop_size (population st)
                 - foldr Z.add 0 (fitness_calculated (population st)))
    /\ set_counter 0 (self st') = set_counter 0 (self st)
    /\ pop_size (population st') = pop_size (population st)
    /\ decode (population st') = decode (population st).
Proof.
  intros Hd Hf Hb. eexists _, _.
  split; [exact (fitness_run_explicit adjusted st Hd Hf Hb) |]. cbn.
  split.
  { destruct (vectorized (self st)); [destruct (recalculate (self st)) |].
    - rewrite scatter_length. exact Hf.
    - rewrite length_map. exact Hd.
    - rewrite written_length. exact Hf. }
  split.
  { generalize (fitness_calculated (population st)) as c.
    induction c as [| x c IH]; cbn; [reflexivity | now rewrite IH]. }
  repeat split.
Qed.

(** X2.  A position whose solution the call does not evaluate keeps, in the
    array returned, the fitness stored before the call. *)
Theorem fitness_keeps_what_it_does_not_evaluate (adjusted : bool) (st : State Sol) :
  length (decode (population st)) = length (fitness_calculated (population st)) ->
  length (fitness_of (population st)) = length (fitness_calculated (population st)) ->
  (vectorized (self st) = true -> batch_pointwise) ->
  exists (res : list Z) (st' : State Sol),
    fitness adjusted st = (Ok res, st')
    /\ forall (i : nat) (c : Z),
         fitness_calculated (population st) !! i = Some c ->
         evaluates (self st) c = false ->
         res !! i = fitness_of (population st) !! i.
Proof.
  intros Hd Hf Hb. eexists _, _.
  split; [exact (fitness_run_explicit adjusted st Hd Hf Hb) |].
  intros i c Hc Hev. unfold evaluates in Hev.
  destruct (vectorized (self st)); [destruct (recalculate (self st)) |].
  - apply scatter_lookup_false. unfold not_calculated.
    now rewrite lookup_map, Hc; cbn; rewrite Hev.
  - discriminate.
  - destruct (lookup_lt_is_Some_2 (decode (population st)) i) as [s Hs].
    { rewrite Hd. eapply lookup_lt_Some, Hc. }
    assert (Hz : zip (decode (population st)) (fitness_calculated (population st)) !! i
                 = Some (s, c)).
    { apply lookup_zip_with_Some. eauto. }
    pose proof (written_at (self st) adjusted _ 0 i (fitness_of (population st)) s c Hz)
      as Hw.
    cbn in Hw. rewrite Hw, Hev; [reflexivity |].
    rewrite Hf. eapply lookup_lt_Some, Hc.
Qed.

(** X3.  With [adjusted] clear the array returned holds, at every position
    evaluated, the raw objective value: the mode does not switch its sign and
    no penalty is taken off. *)
Theorem fitness_unadjusted_is_raw (st : State Sol) :
  length (decode (population st)) = length (fitness_calculated (population st)) ->
  length (fitness_of (population st)) = length (fitness_calculated (population st)) ->
  (vectorized (self st) = true -> batch_pointwise) ->
  exists (res : list Z) (st' : State Sol),
    fitness false st = (Ok res, st')
    /\ forall (i : nat) (solution : Sol) (c : Z),
         decode (population st) !! i = Some solution ->
         fitness_calculated (population st) !! i = Some c ->
         evaluates (self st) c = true ->
         res !! i = Some (objective solution).
Proof.
  intros Hd Hf Hb.
  destruct (fitness_run_wf false st Hd Hf Hb) as (res & f' & Hrun & Hval).
  eexists res, _. split; [exact Hrun |]. exact Hval.
Qed.

Lemma written_skips (o : ObjectiveFunc) (adjusted : bool) (pairs : list (Sol * Z)) :
  recalculate o = false ->
  Forall (fun sc => sc.2 <> 0) pairs ->
  forall (idx : nat) (f : list Z), written o adjusted idx pairs f = f.
Proof.
  intros Hr Hall. induction Hall as [| [s c] pairs Hc Hall IH]; intros idx f;
    [reflexivity |].
  cbn [written]. rewrite Hr. cbn [orb]. cbn in Hc.
  destruct (Z.eqb_spec c 0) as [-> | _]; [congruence |]. apply IH.
Qed.

Lemma select_none {A : Type} (a : list A) (m : list bool) :
  Forall (fun b => b = false) m -> Np.select a m = [].
Proof.
  intros Hall. revert a. induction Hall as [| b m -> Hall IH]; intros [| x a];
    cbn; auto.
Qed.

Lemma sum_replicate_1 (n : nat) : foldr Z.add 0 (replicate n 1) = Z.of_nat n.
Proof. induction n as [| n IH]; cbn [replicate foldr]; lia. Qed.

Lemma map_const_replicate {A : Type} (l : list A) :
  map (fun _ => 1) l = replicate (length l) 1.
Proof. induction l as [| x l IH]; cbn; [reflexivity | now rewrite IH]. Qed.

(** X4.  When the function is neither vectorized nor recalculating and
    [pop_size] is the length of the arrays, a second call right after a first
    returns the same array and changes nothing: no solution is evaluated, the
    counter stays, the flags stay at 1. *)
Theorem fitness_second_call_changes_nothing (adjusted : bool) (st : State Sol) :
  vectorized (self st) = false ->
  recalculate (self st) = false ->
  length (decode (population st)) = length (fitness_calculated (population st)) ->
  length (fitness_of (population st)) = length (fitness_calculated (population st)) ->
  pop_size (population st) = Z.of_nat (length (fitness_calculated (population st))) ->
  exists (res : list Z) (st' : State Sol),
    fitness adjusted st = (Ok res, st')
    /\ fitness adjusted st' = (Ok res, st').
Proof.
  intros Hv Hr Hd Hf Hn. eexists _, _.
  assert (Hb : vectorized (self st) = true -> batch_pointwise)
    by (rewrite Hv; discriminate).
  split; [exact (fitness_run_explicit adjusted st Hd Hf Hb) |].
  rewrite Hv, Hr. cbn [andb negb].
  set (f1 := written _ _ _ _ _). set (st1 := mkState _ _ _).
  assert (Hones : fitness_calculated (population st1)
                  = replicate (length (fitness_calculated (population st))) 1)
    by apply map_const_replicate.
  rewrite fitness_run_explicit.
  - cbn [self population st1 vectorized recalculate set_counter counter pop_size
         fitness_of fitness_calculated decode evaluated].
    rewrite Hv, Hr. cbn [andb negb].
    change (map (fun _ : Z => 1) (fitness_calculated (population st)))
      with (fitness_calculated (population st1)).
    rewrite Hones.
    rewrite written_skips; cycle 1.
    { exact Hr. }
    { apply Forall_forall. intros [s c] Hin.
      apply elem_of_zip_r in Hin. cbn in *. apply elem_of_replicate in Hin as [-> _].
      discriminate. }
    rewrite (select_none _ (map _ (replicate _ _))); cycle 1.
    { apply Forall_forall. intros b Hin. apply list_elem_of_In, in_map_iff in Hin
        as (c & <- & Hin). apply list_elem_of_In, elem_of_replicate in Hin as [-> _].
      unfold evaluates. cbn. now rewrite Hv, Hr. }
    rewrite sum_replicate_1, map_const_replicate, length_replicate, app_nil_r, Hn.
    rewrite Z.sub_diag, Z.add_0_r. subst st1.
    rewrite <- map_const_replicate, <- Hn. reflexivity.
  - cbn. rewrite length_map. exact Hd.
  - cbn. subst f1. rewrite written_length, length_map. exact Hf.
  - cbn. rewrite Hv. discriminate.
Qed.

(** X5.  When the function is vectorized and recalculating and the array of
    flags is not as long as the solutions, the call raises [IndexError] before
    anything is evaluated: the counter, the flags and the stored fitness are
    as they were. *)
Theorem fitness_mask_mismatch_raises (adjusted : bool) (st : State Sol) :
  vectorized (self st) = true ->
  recalculate (self st) = true ->
  length (fitness_calculated (population st)) <> length (decode (population st)) ->
  fitness adjusted st
  = (Raise (IndexError "boolean index did not match indexed array"), st).
Proof.
  intros Hv Hr Hne. unfold fitness, bind, get. rewrite Hv.
  unfold fitness_vectorized, bind, get. rewrite Hr.
  unfold lift, Np.getitem_mask. rewrite decide_False; [reflexivity |].
  unfold not_calculated. now rewrite length_map.
Qed.

End FitnessMore.

Section FitnessMoreWorked.
Import ObjectiveFunc Fitness Examples MoreExamples.

Lemma fitness_marks_all_and_keeps_the_rest_witness :
  exists (res : list Z) (st' : State (list Z)),
    fitness (H := sum_problem) true (half_done "max" true false) = (Ok res, st')
    /\ fitness_calculated (population st') = [1; 1]
    /\ counter (self st') = 1.
Proof.
  destruct (fitness_marks_all_and_keeps_the_rest (H := sum_problem) true
              (half_done "max" true false) eq_refl eq_refl
              (fun _ => sum_problem_pointwise))
    as (res & st' & Hrun & _ & Hflags & Hcount & _).
  exists res, st'. auto.
Defined.

Lemma fitness_keeps_what_it_does_not_evaluate_witness :
  exists (res : list Z) (st' : State (list Z)),
    fitness (H := sum_problem) true (half_done "min" true true) = (Ok res, st')
    /\ res !! 0%nat = Some 5.
Proof.
  destruct (fitness_keeps_what_it_does_not_evaluate (H := sum_problem) true
              (half_done "min" true true) eq_refl eq_refl
              (fun _ => sum_problem_pointwise))
    as (res & st' & Hrun & Hkeep).
  exists res, st'. split; [exact Hrun |].
  exact (Hkeep 0%nat 1 eq_refl eq_refl).
Defined.

Lemma fitness_unadjusted_is_raw_witness :
  exists (res : list Z) (st' : State (list Z)),
    fitness (H := sum_problem) false (half_done "min" true true) = (Ok res, st')
    /\ res !! 1%nat = Some 7.
Proof.
  destruct (fitness_unadjusted_is_raw (H := sum_problem)
              (half_done "min" true true) eq_refl eq_refl
              (fun _ => sum_problem_pointwise))
    as (res & st' & Hrun & Hraw).
  exists res, st'. split; [exact Hrun |].
  exact (Hraw 1%nat [3; 4] 0 eq_refl eq_refl eq_refl).
Defined.

Lemma fitness_second_call_changes_nothing_witness :
  exists (res : list Z) (st' : State (list Z)),
    fitness (H := sum_problem) true (half_done "min" false false) = (Ok res, st')
    /\ fitness (H := sum_problem) true st' = (Ok res, st').
Proof.
  exact (fitness_second_call_changes_nothing (H := sum_problem) true
           (half_done "min" false false) eq_refl eq_refl eq_refl eq_refl eq_refl).
Defined.

Lemma fitness_mask_mismatch_raises_witness :
  fitness (H := sum_problem) true short_flags
  = (Raise (IndexError "boolean index did not match indexed array"), short_flags).
Proof.
  apply (fitness_mask_mismatch_raises (H := sum_problem) true short_flags).
  - reflexivity.
  - reflexivity.
  - intros Hlen. discriminate Hlen.
Defined.

End FitnessMoreWorked.

Section VectorFunc.
Import ObjectiveFunc ObjectiveVectorFunc.

Lemma np_clip_in_range (a : list Z) (lo hi : Z) :
  lo <= hi -> Forall (fun x => lo <= x <= hi) (np_clip a lo hi).
Proof.
  intros Hle. unfold np_clip. induction a as [| x a IH]; cbn; constructor; [lia | exact IH].
Qed.

Lemma np_clip_feasible (a : list Z) (lo hi : Z) :
  Forall (fun x => lo <= x <= hi) a -> np_clip a lo hi = a.
Proof.
  unfold np_clip. induction 1 as [| x a Hx Ha IH]; cbn; [reflexivity |].
  rewrite IH. f_equal. lia.
Qed.

(** X6.  When [low_lim] is at most [up_lim], [repair_solution] returns a
    vector of the same length whose entries all lie between the two limits,
    returns a vector that already does so unchanged, and repairing twice is
    repairing once. *)
Theorem repair_solution_is_a_projection (self : ObjectiveVectorFunc) (vector : list Z) :
  low_lim self <= up_lim self ->
  length (repair_solution self vector) = length vector
  /\ Forall (fun x => low_lim self <= x <= up_lim self) (repair_solution self vector)
  /\ repair_solution self (repair_solution self vector) = repair_solution self vector
  /\ (Forall (fun x => low_lim self <= x <= up_lim self) vector ->
      repair_solution self vector = vector).
Proof.
  intros Hle. unfold repair_solution.
  split; [apply length_map |].
  split; [now apply np_clip_in_range |].
  split; [| apply np_clip_feasible].
  apply np_clip_feasible. now apply np_clip_in_range.
Qed.

(** X7.  When [low_lim] is above [up_lim], [repair_solution] sets every
    entry to [up_lim], whatever the vector holds. *)
Theorem repair_solution_inverted_limits (self : ObjectiveVectorFunc) (vector : list Z) :
  up_lim self < low_lim self ->
  repair_solution self vector = replicate (length vector) (up_lim self).
Proof.
  intros Hlt. unfold repair_solution, np_clip.
  induction vector as [| x v IH]; cbn; [reflexivity |].
  rewrite IH. f_equal. lia.
Qed.

End VectorFunc.

Section FromLambda.
Import ObjectiveFunc Fitness ObjectiveVectorFunc ObjectiveFromLambda.

(** X8.  [ObjectiveFromLambda.__init__] raises [ValueError] exactly when the
    mode is neither ['max'] nor ['min'].  The object it otherwise returns is
    never vectorized and never recalculating, starts with its counter at 0,
    has factor -1 in mode ['min'] and 1 in mode ['max'], keeps the limits
    given, and is named after the callable when the name given is [None]. *)
Theorem from_lambda_init (f : callable) (vecsize : Z) (mode : string)
    (low up : Z) (name : option string) :
  match ObjectiveFromLambda.__init__ f vecsize mode low up name with
  | Ok l =>
      (mode = "max" \/ mode = "min")
      /\ base (vec l)
         = mkObjectiveFunc (match name with None => __name__ f | Some n => n end)
                           0 (if String.eqb mode "min" then -1 else 1)
                           false false mode
      /\ ObjectiveVectorFunc.vecsize (vec l) = vecsize
      /\ low_lim (vec l) = low /\ up_lim (vec l) = up
      /\ obj_func l = f
  | Raise e =>
      mode <> "max" /\ mode <> "min"
      /\ e = ValueError "Optimization objective (mode) must be 'min' or 'max'."
  end.
Proof.
  unfold ObjectiveFromLambda.__init__, ObjectiveVectorFunc.__init__,
    ObjectiveFunc.__init__.
  case_bool_decide as Hin.
  - split; [| split; [| reflexivity]]; intros ->; apply Hin; set_solver.
  - cbn. split; [| repeat split].
    destruct (decide (mode = "max")) as [-> | Hmax]; [now left |].
    destruct (decide (mode = "min")) as [-> | Hmin]; [now right |].
    exfalso. apply list_elem_of_In in Hin. cbn in Hin. intuition congruence.
Qed.

(** X9.  For an object built by [ObjectiveFromLambda.__init__] the counter
    counts evaluations: on a population of [pop_size] individuals with flags
    0 or 1, [fitness] hands to the callable exactly the solutions whose flag
    is 0, adds their number to the counter, and stores for each of them the
    value of the callable, negated in mode ['min']. *)
Theorem from_lambda_counter_counts_evaluations
    (f : callable) (vecsize : Z) (mode : string) (low up : Z)
    (name : option string) (l : ObjectiveFromLambda) (st : State (list Z)) :
  ObjectiveFromLambda.__init__ f vecsize mode low up name = Ok l ->
  set_counter 0 (self st) = base (vec l) ->
  length (decode (population st)) = length (fitness_calculated (population st)) ->
  length (fitness_of (population st)) = length (fitness_calculated (population st)) ->
  pop_size (population st) = Z.of_nat (length (fitness_calculated (population st))) ->
  Forall (fun x => x = 0 \/ x = 1) (fitness_calculated (population st)) ->
  exists (res : list Z) (st' : State (list Z)),
    fitness (H := methods l) true st = (Ok res, st')
    /\ evaluated st'
       = evaluated st
         ++ Np.select (decode (population st))
                      (not_calculated (fitness_calculated (population st)))
    /\ counter (self st')
       = counter (self st)
         + Z.of_nat (length (Np.select (decode (population st))
                               (not_calculated (fitness_calculated (population st)))))
    /\ forall (i : nat) (solution : list Z),
         decode (population st) !! i = Some solution ->
         fitness_calculated (population st) !! i = Some 0 ->
         res !! i = Some ((if String.eqb mode "min" then -1 else 1) * call f solution).
Proof.
  intros Hinit Hself Hd Hf Hn H01.
  pose proof (from_lambda_init f vecsize mode low up name) as Hbuilt.
  rewrite Hinit in Hbuilt. destruct Hbuilt as (_ & Hbase & _ & _ & _ & Hfun).
  rewrite Hbase in Hself.
  assert (Hv : vectorized (self st) = false).
  { change (vectorized (self st)) with (vectorized (set_counter 0 (self st))).
    now rewrite Hself. }
  assert (Hr : recalculate (self st) = false).
  { change (recalculate (self st)) with (recalculate (set_counter 0 (self st))).
    now rewrite Hself. }
  assert (Hfac : factor (self st) = (if String.eqb mode "min" then -1 else 1)).
  { change (factor (self st)) with (factor (set_counter 0 (self st))).
    now rewrite Hself. }
  assert (Hb : vectorized (self st) = true -> batch_pointwise (H := methods l))
    by (rewrite Hv; discriminate).
  eexists _, _.
  split; [exact (fitness_run_explicit (H := methods l) true st Hd Hf Hb) |].
  cbn [evaluated self counter set_counter]. rewrite Hv, Hr.
  assert (Hev : map (evaluates (self st)) (fitness_calculated (population st))
                = not_calculated (fitness_calculated (population st))).
  { unfold not_calculated, evaluates. now rewrite Hv, Hr. }
  rewrite Hev. split; [reflexivity |]. split.
  - f_equal. rewrite select_length
      by (unfold not_calculated; rewrite length_map; congruence).
    unfold not_calculated. rewrite count_not_calculated by exact H01. lia.
  - intros i s Hi Hc.
    assert (Hz : zip (decode (population st)) (fitness_calculated (population st)) !! i
                 = Some (s, 0)).
    { apply lookup_zip_with_Some. eauto. }
    pose proof (written_at (H := methods l) (self st) true _ 0 i
                  (fitness_of (population st)) s 0 Hz) as Hw.
    cbn [Nat.add] in Hw. rewrite Hw by (rewrite Hf; eapply lookup_lt_Some, Hc).
    rewrite orb_true_r. unfold value_of. cbn.
    unfold objective, penalize_default. rewrite Hfac, Hfun. f_equal. lia.
Qed.

End FromLambda.

Section IndividualMore.
Context {E : Type} `{Externals E}.

(** [Indiv(objfunc, vector, speed, operator)] allocates a new object,
    whatever the module binds: its fitness is not computed, its best is the
    vector, it is not dead, and the objects already there are untouched.
    Without a [speed] the constructor of Individual.py as it is written
    raises [NameError] ([np] is not imported) and allocates nothing. *)
Theorem indiv_init_needs_a_speed (G : gmap string (pyobj (list Z)))
    (objfunc : handle) (vector s : list Z) (operator : option handle) (w : World E) :
  Individual.__init__ G objfunc vector (Some s) operator w
  = (Ok (length (heap w)),
     mkWorld (heap w ++ [mkIndiv objfunc vector s operator 0 false vector false])
             (calls w) (ext w))
  /\ Individual.__init__ Individual.module_globals objfunc vector None operator w
     = (Raise (NameError "np"), w).
Proof. split; reflexivity. Qed.

(** X10.  [__copy__] returns a new object that carries the genotype, speed,
    operator, best, cached fitness and cache flag of the original, and is not
    dead whatever the original is; the objective function is not invoked, the
    original is untouched, and giving the copy a new genotype afterwards
    leaves the original as it was. *)
Theorem copy_is_an_independent_clone (G : gmap string (pyobj (list Z)))
    (self : ref) (s : Indiv) (w : World E) :
  heap w !! self = Some s ->
  exists w' : World E,
    __copy__ G self w = (Ok (length (heap w)), w')
    /\ heap w' !! length (heap w)
       = Some (mkIndiv (Individual.objfunc s) (_genotype s) (speed s) (operator s)
                       (_fitness s) (fitness_calculated s) (best s) false)
    /\ (forall r : ref, (r < length (heap w))%nat -> heap w' !! r = heap w !! r)
    /\ calls w' = calls w /\ ext w' = ext w
    /\ forall vector : list Z,
       exists w'' : World E,
         genotype_setter (length (heap w)) vector w' = (Ok tt, w'')
         /\ heap w'' !! self = Some s.
Proof.
  intros Hs. pose proof (lookup_lt_Some _ _ _ Hs) as Hlt.
  unfold __copy__, bind. rewrite (deref_Some _ _ _ Hs).
  unfold Individual.__init__, bind, alloc. cbn [ret].
  set (c0 := mkIndiv _ _ _ _ _ _ _ _).
  assert (Hself : forall (l : list Indiv), (heap w ++ l) !! self = Some s)
    by (intros l; rewrite lookup_app_l by exact Hlt; exact Hs).
  unfold deref at 1. cbn [heap]. rewrite Hself.
  unfold setattr at 1. cbn [heap calls ext].
  rewrite list_lookup_middle by reflexivity.
  rewrite insert_app_r_alt, Nat.sub_diag by lia. cbn [insert list_insert].
  unfold deref at 1. cbn [heap]. rewrite Hself.
  unfold setattr at 1. cbn [heap calls ext].
  rewrite list_lookup_middle by reflexivity.
  rewrite insert_app_r_alt, Nat.sub_diag by lia. cbn [insert list_insert].
  unfold deref at 1. cbn [heap]. rewrite Hself.
  unfold setattr at 1. cbn [heap calls ext].
  rewrite list_lookup_middle by reflexivity.
  rewrite insert_app_r_alt, Nat.sub_diag by lia. cbn [insert list_insert].
  eexists. split; [reflexivity |]. cbn [heap calls ext].
  split; [now rewrite list_lookup_middle by reflexivity |].
  split; [intros r Hr; now rewrite lookup_app_l by exact Hr |].
  split; [reflexivity |]. split; [reflexivity |].
  intros vector. eexists. split.
  - apply genotype_setter_Some. cbn. now rewrite list_lookup_middle by reflexivity.
  - cbn. rewrite list_lookup_insert_ne by lia. apply Hself.
Qed.

(** X11.  A fitness assigned through the setter is what the next read
    returns, and that read does not invoke the objective function. *)
Theorem fitness_assigned_is_fitness_read (self : ref) (s : Indiv) (fit : Z)
    (w : World E) :
  heap w !! self = Some s ->
  exists w' : World E,
    fitness_setter self fit w = (Ok tt, w')
    /\ fitness self w' = (Ok fit, w')
    /\ calls w' = calls w.
Proof.
  intros Hs. eexists. split; [exact (fitness_setter_Some _ _ _ _ Hs) |].
  split; [| reflexivity].
  rewrite (fitness_cached _ self (set_fitness_calculated true (set__fitness fit s)));
    [reflexivity | cbn; eapply heap_insert_eq, Hs | reflexivity].
Qed.

(** What [store_best] does to the world, whatever the objective function and
    whichever two references it is given. *)
Lemma store_best_effect (self candidate : ref) (s c : Indiv) (w : World E) :
  heap w !! self = Some s ->
  heap w !! candidate = Some c ->
  exists (w' : World E) (s' c' : Indiv),
    store_best self candidate w = (Ok tt, w')
    /\ heap w' !! self = Some s'
    /\ heap w' !! candidate = Some c'
    /\ fitness_calculated s' = true /\ fitness_calculated c' = true
    /\ best s' = (if _fitness s' <? _fitness c' then _genotype c' else best s)
    /\ _genotype s' = _genotype s /\ _genotype c' = _genotype c
    /\ (fitness_calculated s = true -> _fitness s' = _fitness s)
    /\ (fitness_calculated c = true -> _fitness c' = _fitness c)
    /\ length (heap w') = length (heap w)
    /\ (forall r : ref, r <> self -> r <> candidate -> heap w' !! r = heap w !! r).
Proof.
  intros Hs Hc. unfold store_best, bind.
  rewrite (fitness_run _ _ _ Hs). cbv beta iota.
  set (s1 := cached s (ext w)).
  set (w1 := mkWorld _ _ _).
  assert (Hs1 : heap w1 !! self = Some s1) by (eapply heap_insert_eq, Hs).
  assert (Hf1 : fitness_calculated s = true -> _fitness s1 = _fitness s).
  { intros Hfc. subst s1. unfold cached. now rewrite Hfc. }
  destruct (decide (self = candidate)) as [<- | Hne].
  - assert (c = s) by congruence. subst c.
    rewrite (fitness_run _ _ _ Hs1). cbv beta iota.
    assert (Hs1' : forall e : E, cached s1 e = s1).
    { intros e. unfold cached. subst s1. now rewrite cached_flag. }
    rewrite !Hs1', Z.ltb_irrefl.
    eexists _, s1, s1. split; [reflexivity |]. cbn.
    rewrite list_insert_insert_eq.
    split; [eapply heap_insert_eq, Hs |]. split; [eapply heap_insert_eq, Hs |].
    subst s1. rewrite cached_flag, cached_best, cached_genotype, Z.ltb_irrefl.
    repeat split; auto.
    + now rewrite length_insert.
    + intros r Hr _. now rewrite list_lookup_insert_ne.
  - assert (Hc1 : heap w1 !! candidate = Some c)
      by (subst w1; cbn; now rewrite list_lookup_insert_ne).
    rewrite (fitness_run _ _ _ Hc1). cbv beta iota.
    set (c2 := cached c (ext w1)).
    set (w2 := mkWorld _ _ _).
    assert (Hc2 : heap w2 !! candidate = Some c2) by (eapply heap_insert_eq, Hc1).
    assert (Hs2 : heap w2 !! self = Some s1)
      by (subst w2; cbn; rewrite list_lookup_insert_ne by congruence; exact Hs1).
    assert (Hf2 : fitness_calculated c = true -> _fitness c2 = _fitness c).
    { intros Hfc. subst c2. unfold cached. now rewrite Hfc. }
    assert (Hlen : length (heap w2) = length (heap w))
      by (subst w2 w1; cbn; now rewrite !length_insert).
    assert (Hframe : forall r : ref, r <> self -> r <> candidate ->
                                     heap w2 !! r = heap w !! r).
    { intros r Hr1 Hr2. subst w2 w1. cbn.
      now rewrite !list_lookup_insert_ne by congruence. }
    destruct (_fitness s1 <? _fitness c2) eqn:Hlt.
    + unfold genotype, bind. rewrite (deref_Some _ _ _ Hc2). cbn [ret].
      rewrite (setattr_Some _ _ _ _ Hs2).
      eexists _, (set_best (_genotype c2) s1), c2. split; [reflexivity |].
      cbn [heap]. split; [eapply heap_insert_eq, Hs2 |].
      split; [rewrite list_lookup_insert_ne by congruence; exact Hc2 |].
      cbn. rewrite Hlt. subst s1 c2.
      rewrite !cached_flag, !cached_genotype.
      repeat split; auto.
      * now rewrite length_insert.
      * intros r Hr1 Hr2. rewrite list_lookup_insert_ne by congruence. now apply Hframe.
    + eexists w2, s1, c2. split; [reflexivity |].
      split; [exact Hs2 |]. split; [exact Hc2 |].
      rewrite Hlt. subst s1 c2. rewrite !cached_flag, !cached_genotype, cached_best.
      repeat split; auto.
Qed.

(** X12.  [store_best] changes no genotype and touches no individual other
    than the two it is given: it leaves both with their fitness cached (a
    fitness cached before is kept), and the stored best of the individual is
    the candidate's genotype when its own fitness is strictly the lower, and
    what it was otherwise. *)
Theorem store_best_touches_only_best_and_caches
    (self candidate : ref) (s c : Indiv) (w : World E) :
  heap w !! self = Some s ->
  heap w !! candidate = Some c ->
  exists (w' : World E) (s' c' : Indiv),
    store_best self candidate w = (Ok tt, w')
    /\ heap w' !! self = Some s'
    /\ heap w' !! candidate = Some c'
    /\ fitness_calculated s' = true /\ fitness_calculated c' = true
    /\ best s' = (if _fitness s' <? _fitness c' then _genotype c' else best s)
    /\ _genotype s' = _genotype s /\ _genotype c' = _genotype c
    /\ (fitness_calculated s = true -> _fitness s' = _fitness s)
    /\ (fitness_calculated c = true -> _fitness c' = _fitness c)
    /\ length (heap w') = length (heap w)
    /\ (forall r : ref, r <> self -> r <> candidate -> heap w' !! r = heap w !! r).
Proof. apply store_best_effect. Qed.

(** C8 (amended).  For an individual whose stored best is its current
    genotype, as the constructor leaves it, and any candidate, [store_best]
    returns; it reads the individual's fitness and then the candidate's, each
    as the [fitness] property returns it, and the stored best afterwards is
    the genotype of whichever has the higher fitness (its own on a tie): it
    is replaced only by the genotype of a candidate whose fitness is strictly
    the higher.  Both fitness values are what later reads return. *)
Theorem store_best_keeps_the_higher_when_best_is_current
    (self candidate : ref) (s c : Indiv) (w : World E) :
  heap w !! self = Some s ->
  heap w !! candidate = Some c ->
  best s = _genotype s ->
  exists (mine theirs : Z) (w1 w2 w' : World E) (s' : Indiv),
    fitness self w = (Ok mine, w1)
    /\ fitness candidate w1 = (Ok theirs, w2)
    /\ store_best self candidate w = (Ok tt, w')
    /\ heap w' !! self = Some s'
    /\ _genotype s' = _genotype s
    /\ best s' = (if mine <? theirs then _genotype c else _genotype s)
    /\ (best s' = _genotype s \/ (best s' = _genotype c /\ mine < theirs))
    /\ fitness self w' = (Ok mine, w')
    /\ fitness candidate w' = (Ok theirs, w').
Proof.
  intros Hs Hc Hbest.
  pose proof (fitness_run _ _ _ Hs) as Hr1.
  set (s1 := cached s (ext w)) in Hr1.
  set (w1 := mkWorld _ _ _) in Hr1.
  assert (Hs1 : heap w1 !! self = Some s1) by (eapply heap_insert_eq, Hs).
  assert (Hflag1 : fitness_calculated s1 = true) by apply cached_flag.
  assert (Hg1 : _genotype s1 = _genotype s) by apply cached_genotype.
  assert (Hb1 : best s1 = _genotype s) by (subst s1; now rewrite cached_best).
  destruct (decide (self = candidate)) as [<- | Hne].
  - assert (c = s) by congruence. subst c.
    pose proof (fitness_cached _ _ _ Hs1 Hflag1) as Hr2.
    exists (_fitness s1), (_fitness s1), w1, w1, w1, s1.
    split; [exact Hr1 |]. split; [exact Hr2 |]. split.
    { unfold store_best, bind. rewrite Hr1, Hr2, Z.ltb_irrefl. reflexivity. }
    rewrite Z.ltb_irrefl. repeat split; auto.
  - assert (Hc1 : heap w1 !! candidate = Some c)
      by (subst w1; cbn; now rewrite list_lookup_insert_ne).
    pose proof (fitness_run _ _ _ Hc1) as Hr2.
    set (c2 := cached c (ext w1)) in Hr2.
    set (w2 := mkWorld _ _ _) in Hr2.
    assert (Hc2 : heap w2 !! candidate = Some c2) by (eapply heap_insert_eq, Hc1).
    assert (Hs2 : heap w2 !! self = Some s1)
      by (subst w2; cbn; rewrite list_lookup_insert_ne by congruence; exact Hs1).
    assert (Hflag2 : fitness_calculated c2 = true) by apply cached_flag.
    assert (Hg2 : _genotype c2 = _genotype c) by apply cached_genotype.
    destruct (_fitness s1 <? _fitness c2) eqn:Hlt.
    + exists (_fitness s1), (_fitness c2), w1, w2,
        (mkWorld (<[self := set_best (_genotype c2) s1]> (heap w2)) (calls w2) (ext w2)),
        (set_best (_genotype c2) s1).
      split; [exact Hr1 |]. split; [exact Hr2 |]. split.
      { unfold store_best, bind. rewrite Hr1, Hr2, Hlt.
        unfold genotype, bind. rewrite (deref_Some _ _ _ Hc2). cbn [ret].
        apply (setattr_Some _ _ _ _ Hs2). }
      split; [cbn; eapply heap_insert_eq, Hs2 |].
      split; [exact Hg1 |]. rewrite Hlt. cbn [best set_best].
      split; [exact Hg2 |].
      split; [right; split; [exact Hg2 | now apply Z.ltb_lt] |].
      split.
      * apply (fitness_cached _ self (set_best (_genotype c2) s1));
          [cbn; eapply heap_insert_eq, Hs2 | exact Hflag1].
      * apply (fitness_cached _ candidate c2); [| exact Hflag2].
        cbn. rewrite list_lookup_insert_ne by congruence. exact Hc2.
    + exists (_fitness s1), (_fitness c2), w1, w2, w2, s1.
      split; [exact Hr1 |]. split; [exact Hr2 |]. split.
      { unfold store_best, bind. rewrite Hr1, Hr2, Hlt. reflexivity. }
      rewrite Hlt. repeat split; auto.
      * apply (fitness_cached _ self s1); assumption.
      * apply (fitness_cached _ candidate c2); assumption.
Qed.

Lemma set_best_same (i : Indiv) : set_best (best i) i = i.
Proof. now destruct i. Qed.

(** X13.  [store_best] is idempotent: a second call with the same candidate
    changes nothing, whatever the objective function does. *)
Theorem store_best_twice_is_once (self candidate : ref) (s c : Indiv) (w : World E) :
  heap w !! self = Some s ->
  heap w !! candidate = Some c ->
  exists w' : World E,
    store_best self candidate w = (Ok tt, w')
    /\ store_best self candidate w' = (Ok tt, w').
Proof.
  intros Hs Hc.
  destruct (store_best_effect self candidate s c w Hs Hc)
    as (w' & s' & c' & Hrun & Hs' & Hc' & Hfs & Hfc & Hbest & _).
  exists w'. split; [exact Hrun |].
  unfold store_best, bind.
  rewrite (fitness_cached _ _ _ Hs' Hfs), (fitness_cached _ _ _ Hc' Hfc).
  destruct (_fitness s' <? _fitness c') eqn:Hlt; [| reflexivity].
  unfold genotype, bind. rewrite (deref_Some _ _ _ Hc'). cbn [ret].
  rewrite (setattr_Some _ _ _ _ Hs'), <- Hbest, set_best_same.
  rewrite list_insert_id by exact Hs'. now destruct w'.
Qed.

End IndividualMore.

Section ESMore.
Import Fresh.
Context {E : Type} `{ES.Collaborators E} `{ES.Sampler E}.

(** X14.  When [size] is not positive [perturb] returns the empty list at
    once, also for an empty parent list, and changes nothing. *)
Theorem perturb_nothing_to_produce (G : gmap string (pyobj (list Z)))
    (self : ES.ES) (parent_list : list ref) (w : World E) :
  ES.size self <= 0 ->
  ES.perturb G self parent_list w = (Ok (Some []), w).
Proof.
  intros Hsize. unfold ES.perturb.
  replace (Z.to_nat (ES.size self)) with 0%nat by lia.
  cbn [ES.perturb_loop length]. change (Z.of_nat 0) with 0.
  destruct (Z.ltb_spec 0 (ES.size self)); [lia | reflexivity].
Qed.

(** X15.  On an empty parent list, when there are offspring to produce,
    [perturb] raises the [IndexError] of [random.choice] and changes
    nothing. *)
Theorem perturb_without_parents (G : gmap string (pyobj (list Z)))
    (self : ES.ES) (w : World E) :
  0 < ES.size self ->
  ES.perturb G self [] w
  = (Raise (IndexError "Cannot choose from an empty sequence"), w).
Proof.
  intros Hsize. unfold ES.perturb.
  destruct (Z.to_nat (ES.size self)) as [| fuel] eqn:Hfuel; [lia |].
  cbn [ES.perturb_loop length]. change (Z.of_nat 0) with 0.
  destruct (Z.ltb_spec 0 (ES.size self)); [reflexivity | lia].
Qed.

Section ReadOnly.
Variable G : gmap string (pyobj (list Z)).
Hypothesis numpy_bound : G !! "np" = Some (PModule "numpy").
Hypothesis cross_reads :
  forall (op : handle) (r : ref) (l : list ref) (h : handle) (w : World E),
  exists (v : list Z) (e' : E),
    ES.cross_evolve op r l h w = (Ok v, mkWorld (heap w) (calls w) e').
Hypothesis mutation_reads :
  forall (op : handle) (r : ref) (l : list ref) (h : handle) (w : World E),
  exists (v : list Z) (e' : E),
    ES.mutation_call op r l h w = (Ok v, mkWorld (heap w) (calls w) e').

Lemma init_newborn (objfunc : handle) (vector : list Z) (w : World E) :
  Individual.__init__ G objfunc vector None None w
  = (Ok (length (heap w)),
     mkWorld (heap w ++ [newborn objfunc vector]) (calls w) (ext w)).
Proof.
  unfold Individual.__init__, bind, load_global. now rewrite numpy_bound.
Qed.

Lemma perturb_round_reads (self : ES.ES) (pop parent_list offspring : list ref)
    (w : World E) :
  ES.population self = Some pop ->
  parent_list <> [] ->
  exists (v v' : list Z) (e' : E),
    ES.perturb_round G self parent_list offspring w
    = (Ok (offspring ++ [S (length (heap w))]),
       mkWorld (heap w
                ++ [newborn (ES.objfunc self) (ES.check_bounds (ES.objfunc self) v);
                    newborn (ES.objfunc self) (ES.check_bounds (ES.objfunc self) v')])
               (calls w) e').
Proof.
  intros Hpop Hne. unfold ES.perturb_round.
  destruct (random_choice_ok parent_list w Hne) as [parent1 Hch].
  unfold bind at 1. rewrite Hch.
  set (w1 := mkWorld _ _ _).
  destruct (cross_reads (ES.cross_op self) parent1 parent_list (ES.objfunc self) w1)
    as (v & e2 & Hcross).
  unfold bind at 1. rewrite Hcross.
  unfold bind at 1. rewrite init_newborn. cbn [heap calls ext w1].
  unfold ES.get_population. rewrite Hpop. unfold bind at 1. cbn [ret].
  set (w3 := mkWorld _ _ _).
  destruct (mutation_reads (ES.mutation_op self) (length (heap w)) pop
              (ES.objfunc self) w3) as (v' & e4 & Hmut).
  unfold bind at 1. rewrite Hmut.
  unfold bind. rewrite init_newborn. cbn [heap calls ext w3 ret].
  exists v, v', e4. rewrite length_app, <- app_assoc. cbn [length app].
  now replace (length (heap w) + 1)%nat with (S (length (heap w))) by lia.
Qed.

Lemma perturb_loop_reads (self : ES.ES) (pop parent_list : list ref) (fuel : nat) :
  ES.population self = Some pop ->
  parent_list <> [] ->
  forall (offspring : list ref) (w : World E),
    (length offspring + fuel = Z.to_nat (ES.size self))%nat ->
    exists (news : list ref) (added : list Indiv) (e' : E),
      ES.perturb_loop G fuel self parent_list offspring w
      = (Ok (Some (offspring ++ news)), mkWorld (heap w ++ added) (calls w) e')
      /\ length news = fuel
      /\ NoDup news
      /\ Forall (fun r => (length (heap w) <= r)%nat
                          /\ exists v : list Z,
                               (heap w ++ added) !! r
                               = Some (newborn (ES.objfunc self)
                                         (ES.check_bounds (ES.objfunc self) v)))
                news.
Proof.
  intros Hpop Hne. induction fuel as [| fuel IH]; intros offspring w Hlen.
  - cbn [ES.perturb_loop].
    replace (Z.of_nat (length offspring) <? ES.size self) with false
      by (symmetry; apply Z.ltb_ge; lia).
    exists [], [], (ext w). rewrite !app_nil_r. destruct w as [hp cl e].
    repeat split; constructor.
  - cbn [ES.perturb_loop].
    replace (Z.of_nat (length offspring) <? ES.size self) with true
      by (symmetry; apply Z.ltb_lt; lia).
    destruct (perturb_round_reads self pop parent_list offspring w Hpop Hne)
      as (v & v' & e1 & Hround).
    unfold bind. rewrite Hround.
    set (a := newborn _ (ES.check_bounds _ v)).
    set (b := newborn _ (ES.check_bounds _ v')).
    destruct (IH (offspring ++ [S (length (heap w))])
                 (mkWorld (heap w ++ [a; b]) (calls w) e1))
      as (news & added & e' & Hrun & Hn & Hnd & Hall).
    { rewrite length_app. cbn. lia. }
    cbn [heap calls] in Hrun, Hall.
    exists (S (length (heap w)) :: news), ([a; b] ++ added), e'.
    rewrite Hrun, <- !app_assoc. cbn [app].
    split; [reflexivity |]. split; [cbn; congruence |].
    rewrite Forall_forall in Hall. split.
    + constructor; [| exact Hnd]. intros Hin.
      destruct (Hall _ Hin) as [Hge _]. rewrite length_app in Hge. cbn in Hge. lia.
    + constructor.
      * split; [lia |]. exists v'.
        rewrite lookup_app_r by lia.
        replace (S (length (heap w)) - length (heap w))%nat with 1%nat by lia.
        reflexivity.
      * apply Forall_forall. intros r Hin. destruct (Hall _ Hin) as [Hge [u Hu]].
        rewrite length_app in Hge. cbn in Hge. split; [lia |]. exists u.
        rewrite <- app_assoc in Hu. exact Hu.
Qed.

(** X16.  With numpy imported and operators that only read the individuals,
    the offspring [perturb] returns are distinct objects that did not exist
    before; each is as the constructor leaves it (fitness not computed, best
    equal to its genotype, zero speed) with a genotype that came out of
    [check_bounds]; the individuals that existed before are untouched and the
    objective function is not invoked. *)
Theorem perturb_offspring_are_new_and_repaired
    (self : ES.ES) (pop parent_list : list ref) (w : World E) :
  ES.population self = Some pop ->
  parent_list <> [] ->
  exists (offspring : list ref) (w' : World E),
    ES.perturb G self parent_list w = (Ok (Some offspring), w')
    /\ NoDup offspring
    /\ calls w' = calls w
    /\ (forall r : ref, (r < length (heap w))%nat -> heap w' !! r = heap w !! r)
    /\ Forall (fun r => (length (heap w) <= r)%nat
                        /\ exists v : list Z,
                             heap w' !! r
                             = Some (newborn (ES.objfunc self)
                                       (ES.check_bounds (ES.objfunc self) v)))
              offspring.
Proof.
  intros Hpop Hne. unfold ES.perturb.
  destruct (perturb_loop_reads self pop parent_list (Z.to_nat (ES.size self))
              Hpop Hne [] w eq_refl)
    as (news & added & e' & Hrun & _ & Hnd & Hall).
  eexists _, _. split; [exact Hrun |]. cbn.
  split; [exact Hnd |]. split; [reflexivity |].
  split; [intros r Hr; now rewrite lookup_app_l by exact Hr | exact Hall].
Qed.

Lemma initialize_loop_draws (self : ES.ES) (n : nat) :
  forall (population : list ref) (w : World E),
    ES.initialize_loop G n self population w
    = (Ok tt,
       ES.set_population (population ++ seq (length (heap w)) n) self,
       mkWorld (heap w
                ++ map (newborn (ES.objfunc self))
                       (draws n (ES.objfunc self) (ext w)).1)
               (calls w)
               (draws n (ES.objfunc self) (ext w)).2).
Proof.
  induction n as [| n IH]; intros population w.
  - cbn. rewrite !app_nil_r. now destruct w.
  - cbn [ES.initialize_loop draws].
    destruct (ES.random_solution (ES.objfunc self) (ext w)) as [v e1].
    rewrite init_newborn. cbn [heap calls ext]. cbv beta iota.
    etransitivity; [apply IH |]. cbn [heap calls ext].
    destruct (draws n (ES.objfunc self) e1) as [vs e2]. cbn [fst snd map].
    rewrite length_app, <- !app_assoc. cbn [length app seq].
    now replace (length (heap w) + 1)%nat with (S (length (heap w))) by lia.
Qed.

(** X18.  With numpy imported [initialize] replaces the population by
    [size] new individuals, the i-th as the constructor leaves it on the
    vector the i-th call of [random_solution] returns; the external state is
    as those calls leave it, the individuals that existed before stay in the
    heap untouched, and the objective function is not invoked. *)
Theorem initialize_builds_size_individuals (self : ES.ES) (w : World E) :
  let n := Z.to_nat (ES.size self) in
  ES.initialize G self w
  = (Ok tt,
     ES.set_population (seq (length (heap w)) n) self,
     mkWorld (heap w
              ++ map (newborn (ES.objfunc self))
                     (draws n (ES.objfunc self) (ext w)).1)
             (calls w)
             (draws n (ES.objfunc self) (ext w)).2).
Proof. intros n. unfold ES.initialize. apply (initialize_loop_draws self n [] w). Qed.

End ReadOnly.

(** X17.  An [ES] built with a population and from parameters without
    ['offspringSize'] has [n_offspring] equal to its size; with numpy
    imported, operators that return (whatever they do to the world) and a
    parent list that is not empty, [perturb] then produces exactly
    [n_offspring] offspring. *)
Theorem perturb_default_offspring (G : gmap string (pyobj (list Z)))
    (objfunc mutation_op cross_op parent_sel_op selection_op : handle)
    (params : gmap string Z) (pop parent_list : list ref) (w : World E) :
  G !! "np" = Some (PModule "numpy") ->
  (forall (op : handle) (r : ref) (l : list ref) (h : handle) (w : World E),
   exists (v : list Z) (w' : World E), ES.cross_evolve op r l h w = (Ok v, w')) ->
  (forall (op : handle) (r : ref) (l : list ref) (h : handle) (w : World E),
   exists (v : list Z) (w' : World E), ES.mutation_call op r l h w = (Ok v, w')) ->
  params !! "offspringSize" = None ->
  parent_list <> [] ->
  let self := ES.__init__ objfunc mutation_op cross_op parent_sel_op selection_op
                          params (Some pop) None in
  exists (offspring : list ref) (w' : World E),
    ES.perturb G self parent_list w = (Ok (Some offspring), w')
    /\ length offspring = Z.to_nat (ES.n_offspring self)
    /\ ES.n_offspring self = ES.size self.
Proof.
  intros Hnp Hcross Hmut Hoff Hne self.
  assert (Hn : ES.n_offspring self = ES.size self).
  { subst self. unfold ES.__init__. cbn. now rewrite Hoff. }
  destruct (perturb_returns_size_offspring G Hnp Hcross Hmut self pop parent_list w
              eq_refl Hne)
    as (offspring & w' & Hrun & Hlen).
  exists offspring, w'. split; [exact Hrun |]. split; [| exact Hn]. now rewrite Hn.
Qed.

(** X19.  With Individual.py as it is written, [initialize] of an [ES] of
    positive size raises [NameError]: it has emptied the population and drawn
    one random solution, and builds no individual. *)
Theorem initialize_raises_NameError (self : ES.ES) (w : World E) :
  0 < ES.size self ->
  ES.initialize Individual.module_globals self w
  = (Raise (NameError "np"),
     ES.set_population [] self,
     mkWorld (heap w) (calls w)
             (snd (ES.random_solution (ES.objfunc self) (ext w)))).
Proof.
  intros Hsize. unfold ES.initialize.
  destruct (Z.to_nat (ES.size self)) as [| n] eqn:Hn; [lia |].
  cbn [ES.initialize_loop].
  now destruct (ES.random_solution (ES.objfunc self) (ext w)) as [v e1].
Qed.

End ESMore.

Section Renaming.
Import AlgorithmSelection.

Lemma renamed_by_counter (n : string) (c : gmap string nat) :
  (forall (m : string) (k : nat), c !! m = Some k -> (0 < k)%nat) ->
  match c !! n with
  | Some count => n +:+ pretty (count + 1)%nat
  | None => n
  end = renamed n (default 0%nat (c !! n)).
Proof.
  intros Hpos. destruct (c !! n) as [k |] eqn:Hk; [| reflexivity].
  apply Hpos in Hk. destruct k; [lia | reflexivity].
Qed.

Lemma occurrences_cons (n m : string) (l : list string) :
  occurrences n (m :: l)
  = ((if decide (m = n) then 1 else 0) + occurrences n l)%nat.
Proof.
  unfold occurrences. rewrite filter_cons. now destruct (decide (m = n)).
Qed.

Lemma names_frame (rest : list AlgorithmSelection.ref) (orig names names1 : list string) :
  Forall2 (fun r n => names !! r = Some n) rest orig ->
  (forall r : AlgorithmSelection.ref, r ∈ rest -> names1 !! r = names !! r) ->
  Forall2 (fun r n => names1 !! r = Some n) rest orig.
Proof.
  induction 1 as [| r n rest orig Hr Hrest IH]; intros Hsame; constructor.
  - rewrite Hsame; [exact Hr | apply list_elem_of_here].
  - apply IH. intros r' Hr'. apply Hsame. now apply list_elem_of_further.
Qed.

(** The loop, from any counter whose counts are positive. *)
Lemma avoid_repeating_run (algs : list AlgorithmSelection.ref) :
  forall (orig names : list string) (c : gmap string nat),
    NoDup algs ->
    Forall2 (fun r n => names !! r = Some n) algs orig ->
    (forall (m : string) (k : nat), c !! m = Some k -> (0 < k)%nat) ->
    exists names' : list string,
      avoid_repeating algs c names = (Ok tt, names')
      /\ length names' = length names
      /\ (forall r : AlgorithmSelection.ref, r ∉ algs -> names' !! r = names !! r)
      /\ forall (i : nat) (r : AlgorithmSelection.ref) (n : string),
           algs !! i = Some r -> orig !! i = Some n ->
           names' !! r
           = Some (renamed n (default 0%nat (c !! n)
                              + occurrences n (take i orig))%nat).
Proof.
  induction algs as [| alg rest IH]; intros orig names c Hnd Hnames Hpos.
  - exists names. repeat split; auto. intros i r n Hi. discriminate.
  - apply Forall2_cons_inv_l in Hnames as (n0 & orig' & Hn0 & Hrest & ->).
    apply NoDup_cons in Hnd as [Hnotin Hnd].
    cbn [avoid_repeating]. unfold bind at 1. unfold get_name at 1. rewrite Hn0.
    set (names1 := match c !! n0 with
                   | Some count => <[alg := n0 +:+ pretty (count + 1)%nat]> names
                   | None => names
                   end).
    assert (Hstep : (match c !! n0 with
                     | Some count => set_name alg (n0 +:+ pretty (count + 1)%nat)
                     | None => ret tt
                     end) names = (Ok tt, names1)).
    { subst names1. now destruct (c !! n0). }
    unfold bind. rewrite Hstep.
    assert (Hlen1 : length names1 = length names).
    { subst names1. destruct (c !! n0); [apply length_insert | reflexivity]. }
    assert (Hother : forall r, r <> alg -> names1 !! r = names !! r).
    { intros r Hr. subst names1. destruct (c !! n0); [| reflexivity].
      now apply list_lookup_insert_ne. }
    assert (Halg : names1 !! alg = Some (renamed n0 (default 0%nat (c !! n0)))).
    { rewrite <- (renamed_by_counter n0 c Hpos). subst names1.
      destruct (c !! n0); [| exact Hn0].
      apply list_lookup_insert_eq. eapply lookup_lt_Some, Hn0. }
    destruct (IH orig' names1 (counter_update n0 c) Hnd) as (names' & Hrun & Hlen & Hout & Hin).
    { apply (names_frame rest orig' names names1 Hrest).
      intros r Hr. apply Hother. intros ->. contradiction. }
    { intros m k. unfold counter_update. rewrite lookup_insert.
      case_decide; [intros [= <-]; lia | apply Hpos]. }
    exists names'. split; [exact Hrun |]. split; [congruence |]. split.
    + intros r Hr. apply not_elem_of_cons in Hr as [Hr1 Hr2].
      rewrite (Hout r Hr2). now apply Hother.
    + intros [| i] r n Hi Ho; cbn in Hi, Ho.
      * injection Hi as <-. injection Ho as <-.
        rewrite (Hout alg Hnotin), Halg. cbn [take]. unfold occurrences. cbn.
        now rewrite Nat.add_0_r.
      * rewrite (Hin i r n Hi Ho). f_equal. f_equal.
        cbn [take]. rewrite occurrences_cons. unfold counter_update.
        rewrite lookup_insert. destruct (decide (n0 = n)) as [-> | Hne].
        -- cbn. lia.
        -- cbn. lia.
Qed.

(** X20.  For algorithms that are distinct objects, the constructor leaves
    the first algorithm of each name with its name and gives an algorithm
    that comes after [k] others of the same name the name followed by
    [k + 1]; the names of algorithms not listed are untouched. *)
Theorem init_numbers_the_later_namesakes
    (algs : list AlgorithmSelection.ref) (orig names : list string)
    (params : option (gmap string value)) :
  NoDup algs ->
  Forall2 (fun r n => names !! r = Some n) algs orig ->
  exists (a : AlgorithmSelection) (names' : list string),
    AlgorithmSelection.__init__ algs params names = (Ok a, names')
    /\ algorithm_list a = algs
    /\ length names' = length names
    /\ (forall r : AlgorithmSelection.ref, r ∉ algs -> names' !! r = names !! r)
    /\ forall (i : nat) (r : AlgorithmSelection.ref) (n : string),
         algs !! i = Some r -> orig !! i = Some n ->
         names' !! r = Some (renamed n (occurrences n (take i orig))).
Proof.
  intros Hnd Hnames.
  destruct (avoid_repeating_run algs orig names ∅ Hnd Hnames)
    as (names' & Hrun & Hlen & Hout & Hin).
  { intros m k Hk. rewrite lookup_empty in Hk. discriminate. }
  unfold AlgorithmSelection.__init__, bind. rewrite Hrun.
  eexists _, names'. split; [reflexivity |]. cbn.
  split; [reflexivity |]. split; [exact Hlen |]. split; [exact Hout |].
  intros i r n Hi Ho. rewrite (Hin i r n Hi Ho), lookup_empty. reflexivity.
Qed.

Lemma occurrences_not_in (n : string) (l : list string) :
  n ∉ l -> occurrences n l = 0%nat.
Proof.
  induction l as [| m l IH]; [reflexivity |]. intros Hn.
  apply not_elem_of_cons in Hn as [Hne Hn]. rewrite occurrences_cons.
  rewrite decide_False by congruence. now rewrite IH.
Qed.

(** X21.  When the algorithms listed are distinct objects with pairwise
    distinct names, the constructor renames none. *)
Theorem init_keeps_distinct_names
    (algs : list AlgorithmSelection.ref) (orig names : list string)
    (params : option (gmap string value)) :
  NoDup algs ->
  Forall2 (fun r n => names !! r = Some n) algs orig ->
  NoDup orig ->
  exists a : AlgorithmSelection,
    AlgorithmSelection.__init__ algs params names = (Ok a, names).
Proof.
  intros Hnd Hnames Hdistinct.
  destruct (avoid_repeating_run algs orig names ∅ Hnd Hnames)
    as (names' & Hrun & Hlen & Hout & Hin).
  { intros m k Hk. rewrite lookup_empty in Hk. discriminate. }
  unfold AlgorithmSelection.__init__, bind. rewrite Hrun.
  assert (names' = names) as ->; [| eexists; reflexivity].
  apply list_eq. intros r.
  destruct (decide (r ∈ algs)) as [Hr | Hr]; [| now apply Hout].
  apply list_elem_of_lookup in Hr as [i Hi].
  destruct (Forall2_lookup_l _ _ _ _ _ Hnames Hi) as (n & Ho & Hn).
  etransitivity; [exact (Hin i r n Hi Ho) |].
  transitivity (Some n); [| symmetry; exact Hn].
  rewrite lookup_empty. cbn.
  rewrite occurrences_not_in; [reflexivity |].
  intros Hel. apply list_elem_of_lookup in Hel as [j Hj].
  apply lookup_take_Some in Hj as [Hj Hlt].
  pose proof (NoDup_lookup _ _ _ _ Hdistinct Hj Ho). lia.
Qed.

Lemma append_not_self (n s : string) : s <> "" -> n +:+ s <> n.
Proof.
  intros Hs. induction n as [| a n IH]; cbn.
  - exact Hs.
  - intros [= Heq]. now apply IH.
Qed.

Lemma avoid_repeating_step (alg : AlgorithmSelection.ref)
    (rest : list AlgorithmSelection.ref) (c : gmap string nat)
    (names : list string) (n0 : string) :
  names !! alg = Some n0 ->
  avoid_repeating (alg :: rest) c names
  = avoid_repeating rest (counter_update n0 c)
      (match c !! n0 with
       | Some count => <[alg := n0 +:+ pretty (count + 1)%nat]> names
       | None => names
       end).
Proof.
  intros Hn. cbn [avoid_repeating]. unfold bind, get_name. rewrite Hn.
  now destruct (c !! n0).
Qed.

(** X22.  The names the constructor leaves can still repeat: of three
    distinct algorithms called [n], [n] followed by 2, and [n], the third
    is given the name of the second. *)
Theorem init_can_leave_repeated_names (n : string)
    (params : option (gmap string value)) :
  exists a : AlgorithmSelection,
    AlgorithmSelection.__init__ [0; 1; 2]%nat params [n; n +:+ "2"; n]
    = (Ok a, [n; n +:+ "2"; n +:+ "2"]).
Proof.
  pose proof (append_not_self n "2" ltac:(discriminate)) as Hne.
  assert (Hloop : avoid_repeating [0; 1; 2]%nat ∅ [n; n +:+ "2"; n]
                  = (Ok tt, [n; n +:+ "2"; n +:+ "2"])).
  { rewrite (avoid_repeating_step 0%nat _ _ [n; n +:+ "2"; n] n eq_refl).
    rewrite lookup_empty.
    rewrite (avoid_repeating_step 1%nat _ _ [n; n +:+ "2"; n] (n +:+ "2") eq_refl).
    assert (H1 : counter_update n ∅ !! (n +:+ "2") = None).
    { unfold counter_update. rewrite lookup_insert_ne by congruence.
      apply lookup_empty. }
    rewrite H1.
    rewrite (avoid_repeating_step 2%nat _ _ [n; n +:+ "2"; n] n eq_refl).
    assert (H2 : counter_update (n +:+ "2") (counter_update n ∅) !! n = Some 1%nat).
    { unfold counter_update at 1. rewrite lookup_insert_ne by exact Hne.
      unfold counter_update. rewrite lookup_insert_eq, lookup_empty. reflexivity. }
    rewrite H2. reflexivity. }
  unfold AlgorithmSelection.__init__, bind. rewrite Hloop.
  eexists. reflexivity.
Qed.

End Renaming.

Section HarmonySearch.
Import HS.
Context {num : Type} (mul : num -> num -> num) (one_minus : num -> num).

(** X23.  [HS.__init__] needs the keys ['BW'], ['HMCR'] and ['PAR']: it
    raises [KeyError] on the first of them, in that order, that the
    parameters lack (on ['BW'] for the default, empty parameters), and
    otherwise builds a strategy with one offspring per generation, survivor
    selection ['(m+n)'], and the operator sequence of a crossover over the
    whole population, a Gaussian mutation of strength [BW] and rate
    [HMCR * PAR], and a random mask of rate [1 - HMCR]. *)
Theorem HS_init_needs_three_keys (pop_size : Z) (params : gmap string num)
    (name : string) :
  match HS.__init__ num mul one_minus pop_size params name with
  | inl (KeyError key) =>
      params !! key = None
      /\ (key = "BW"
          \/ (key = "HMCR" /\ is_Some (params !! "BW"))
          \/ (key = "PAR" /\ is_Some (params !! "BW") /\ is_Some (params !! "HMCR")))
  | inr h =>
      exists bw hmcr par : num,
        params !! "BW" = Some bw /\ params !! "HMCR" = Some hmcr
        /\ params !! "PAR" = Some par
        /\ h = mkHS num pop_size
                 (OperatorMeta num "Sequence"
                    [OperatorVector num "Multicross" [("Nindiv", Int num pop_size)];
                     OperatorMeta num "Sequence"
                       [OperatorVector num "MutNoise"
                          [("distrib", Str num "Gauss"); ("F", Num num bw);
                           ("Cr", Num num (mul hmcr par))];
                        OperatorVector num "RandomMask"
                          [("Cr", Num num (one_minus hmcr))]]])
                 "(m+n)" 1 params name
  end.
Proof.
  unfold HS.__init__, getitem.
  destruct (params !! "BW") as [bw |] eqn:Hbw; [| split; [exact Hbw | now left]].
  destruct (params !! "HMCR") as [hmcr |] eqn:Hh;
    [| split; [exact Hh | right; left; eauto]].
  destruct (params !! "PAR") as [par |] eqn:Hp;
    [| split; [exact Hp | right; right; eauto]].
  exists bw, hmcr, par. repeat split.
Qed.

End HarmonySearch.

Section MoreWorked.
Import Examples MoreExamples Fresh.

Lemma repair_solution_is_a_projection_witness :
  ObjectiveVectorFunc.repair_solution bounded [150; -3; -200] = [100; -3; -100]
  /\ Forall (fun x => -100 <= x <= 100)
            (ObjectiveVectorFunc.repair_solution bounded [150; -3; -200]).
Proof.
  split; [reflexivity |].
  apply (repair_solution_is_a_projection bounded [150; -3; -200]).
  cbn. lia.
Defined.

Lemma repair_solution_inverted_limits_witness :
  ObjectiveVectorFunc.repair_solution inverted [0; 3; 9] = [1; 1; 1].
Proof.
  apply (repair_solution_inverted_limits inverted [0; 3; 9]). cbn. lia.
Defined.

Lemma from_lambda_counter_counts_evaluations_witness :
  exists (res : list Z) (st' : ObjectiveFunc.State (list Z)),
    ObjectiveFunc.fitness
      (H := ObjectiveFromLambda.methods
              (ObjectiveFromLambda.mkObjectiveFromLambda
                 (ObjectiveVectorFunc.mkObjectiveVectorFunc
                    (ObjectiveFunc.mkObjectiveFunc "sum" 0 (-1) false false "min")
                    2 (-100) 100)
                 sum_callable))
      true (half_done "min" false false) = (Ok res, st')
    /\ ObjectiveFunc.counter (ObjectiveFunc.self st') = 1
    /\ res !! 1%nat = Some (-7).
Proof.
  destruct (from_lambda_counter_counts_evaluations sum_callable 2 "min" (-100) 100
              (Some "sum") _ (half_done "min" false false)
              eq_refl eq_refl eq_refl eq_refl eq_refl)
    as (res & st' & Hrun & _ & Hcount & Hval).
  { constructor; [right; reflexivity |].
    constructor; [left; reflexivity | constructor]. }
  exists res, st'. split; [exact Hrun |]. split; [exact Hcount |].
  exact (Hval 1%nat [3; 4] eq_refl eq_refl).
Defined.

Lemma copy_is_an_independent_clone_witness :
  exists w' : World unit,
    __copy__ Individual.module_globals 0%nat dead_one
    = (Ok 1%nat, w')
    /\ heap w' !! 1%nat
       = Some (mkIndiv 0%nat [1; 2] [0; 0] None 3 true [1; 2] false).
Proof.
  destruct (copy_is_an_independent_clone
              Individual.module_globals 0%nat _ dead_one eq_refl)
    as (w' & Hrun & Hcopy & _).
  exists w'. split; [exact Hrun | exact Hcopy].
Defined.

Lemma fitness_assigned_is_fitness_read_witness :
  exists w' : World Z,
    fitness_setter 0%nat 99 one_fresh = (Ok tt, w')
    /\ fitness (H := drifting_objective) 0%nat w' = (Ok 99, w')
    /\ calls w' = [].
Proof.
  exact (fitness_assigned_is_fitness_read (H := drifting_objective)
           0%nat _ 99 one_fresh eq_refl).
Defined.

Lemma store_best_touches_only_best_and_caches_witness :
  exists (w' : World unit) (s' : Indiv),
    store_best (H := sum_objective) 0%nat 1%nat moved_on = (Ok tt, w')
    /\ heap w' !! 0%nat = Some s'
    /\ _genotype s' = [1].
Proof.
  destruct (store_best_touches_only_best_and_caches (H := sum_objective)
              0%nat 1%nat _ _ moved_on eq_refl eq_refl)
    as (w' & s' & c' & Hrun & Hs' & _ & _ & _ & _ & Hg & _).
  exists w', s'. auto.
Defined.

Lemma store_best_twice_is_once_witness :
  exists w' : World unit,
    store_best (H := sum_objective) 0%nat 1%nat moved_on = (Ok tt, w')
    /\ store_best (H := sum_objective) 0%nat 1%nat w' = (Ok tt, w').
Proof.
  exact (store_best_twice_is_once (H := sum_objective)
           0%nat 1%nat _ _ moved_on eq_refl eq_refl).
Defined.

Lemma perturb_nothing_to_produce_witness :
  ES.perturb (H0 := reading_operators) Individual.module_globals of_none [] fresh_pair
  = (Ok (Some []), fresh_pair).
Proof.
  apply (perturb_nothing_to_produce (H := reading_operators)).
  vm_compute. intros Hgt. discriminate Hgt.
Defined.

Lemma perturb_without_parents_witness :
  ES.perturb (H0 := reading_operators) Individual.module_globals of_two [] fresh_pair
  = (Raise (IndexError "Cannot choose from an empty sequence"), fresh_pair).
Proof.
  apply (perturb_without_parents (H := reading_operators)).
  reflexivity.
Defined.

Lemma reading_operators_read :
  (forall (op : handle) (r : Individual.ref) (l : list Individual.ref)
          (h : handle) (w : World unit),
   exists (v : list Z) (e' : unit),
     ES.cross_evolve (Collaborators := reading_operators) op r l h w
     = (Ok v, mkWorld (heap w) (calls w) e'))
  /\ (forall (op : handle) (r : Individual.ref) (l : list Individual.ref)
             (h : handle) (w : World unit),
      exists (v : list Z) (e' : unit),
        ES.mutation_call (Collaborators := reading_operators) op r l h w
        = (Ok v, mkWorld (heap w) (calls w) e')).
Proof. split; intros; eexists _, _; reflexivity. Defined.

Lemma perturb_offspring_are_new_and_repaired_witness :
  exists (offspring : list Individual.ref) (w' : World unit),
    ES.perturb (H0 := reading_operators) with_numpy two_and_three [0%nat] fresh_pair
    = (Ok (Some offspring), w')
    /\ NoDup offspring
    /\ calls w' = [].
Proof.
  destruct (perturb_offspring_are_new_and_repaired (H := reading_operators)
              with_numpy eq_refl
              (proj1 reading_operators_read) (proj2 reading_operators_read)
              two_and_three [0%nat] [0%nat] fresh_pair eq_refl)
    as (offspring & w' & Hrun & Hnd & Hcalls & _).
  { intros Hnil. discriminate Hnil. }
  exists offspring, w'. auto.
Defined.

Lemma reading_operators_return :
  (forall (op : handle) (r : Individual.ref) (l : list Individual.ref)
          (h : handle) (w : World unit),
   exists (v : list Z) (w' : World unit),
     ES.cross_evolve (Collaborators := reading_operators) op r l h w = (Ok v, w'))
  /\ (forall (op : handle) (r : Individual.ref) (l : list Individual.ref)
             (h : handle) (w : World unit),
      exists (v : list Z) (w' : World unit),
        ES.mutation_call (Collaborators := reading_operators) op r l h w = (Ok v, w')).
Proof. split; intros; eexists _, _; reflexivity. Defined.

Lemma perturb_default_offspring_witness :
  exists (offspring : list Individual.ref) (w' : World unit),
    ES.perturb (H0 := reading_operators) with_numpy of_two [0%nat] fresh_pair
    = (Ok (Some offspring), w')
    /\ length offspring = 2%nat.
Proof.
  destruct (perturb_default_offspring (H := reading_operators)
              with_numpy
              0%nat 1%nat 2%nat 3%nat 4%nat {[ "popSize" := 2 ]} [0%nat] [0%nat]
              fresh_pair eq_refl
              (proj1 reading_operators_return) (proj2 reading_operators_return))
    as (offspring & w' & Hrun & Hlen & _).
  { reflexivity. }
  { intros Hnil. discriminate Hnil. }
  exists offspring, w'. split; [exact Hrun | exact Hlen].
Defined.

Lemma initialize_builds_size_individuals_witness :
  ES.initialize (H := counting_sampler) with_numpy of_two
    (mkWorld [indiv [1] [1]] [] 7)
  = (Ok tt, ES.set_population [1%nat; 2%nat] of_two,
     mkWorld [indiv [1] [1]; newborn 0%nat [7; 8]; newborn 0%nat [8; 9]] [] 9).
Proof.
  exact (initialize_builds_size_individuals (H0 := counting_sampler)
           with_numpy eq_refl of_two (mkWorld [indiv [1] [1]] [] 7)).
Defined.

Lemma store_best_keeps_the_higher_when_best_is_current_witness :
  exists (w' : World unit) (s' : Indiv),
    store_best (H := sum_objective) 0%nat 1%nat fresh_pair = (Ok tt, w')
    /\ heap w' !! 0%nat = Some s'
    /\ best s' = [5].
Proof.
  destruct (store_best_keeps_the_higher_when_best_is_current (H := sum_objective)
              0%nat 1%nat (indiv [1] [1]) (indiv [5] [5]) fresh_pair
              eq_refl eq_refl eq_refl)
    as (mine & theirs & w1 & w2 & w' & s' & Hr1 & Hr2 & Hrun & Hs' & _ & Hb & _).
  exists w', s'. split; [exact Hrun |]. split; [exact Hs' |].
  injection Hr1 as <- <-. injection Hr2 as <- _. exact Hb.
Defined.

Lemma initialize_raises_NameError_witness :
  ES.initialize (H := fixed_sampler) Individual.module_globals of_two fresh_pair
  = (Raise (NameError "np"), ES.set_population [] of_two, fresh_pair).
Proof.
  apply (initialize_raises_NameError (H0 := fixed_sampler) of_two fresh_pair).
  reflexivity.
Defined.

Lemma init_numbers_the_later_namesakes_witness :
  exists (a : AlgorithmSelection.AlgorithmSelection) (names' : list string),
    AlgorithmSelection.__init__ [0; 2; 1]%nat None ["ES"; "ES"; "ES"]
    = (Ok a, names')
    /\ names' !! 1%nat = Some "ES3".
Proof.
  destruct (init_numbers_the_later_namesakes [0; 2; 1]%nat ["ES"; "ES"; "ES"]
              ["ES"; "ES"; "ES"] None)
    as (a & names' & Hrun & _ & _ & _ & Hin).
  { apply (bool_decide_unpack _). reflexivity. }
  { repeat constructor. }
  exists a, names'. split; [exact Hrun |].
  exact (Hin 2%nat 1%nat "ES" eq_refl eq_refl).
Defined.

Lemma init_keeps_distinct_names_witness :
  exists a : AlgorithmSelection.AlgorithmSelection,
    AlgorithmSelection.__init__ [1; 0]%nat None ["ES"; "GA"; "ES"]
    = (Ok a, ["ES"; "GA"; "ES"]).
Proof.
  apply (init_keeps_distinct_names [1; 0]%nat ["GA"; "ES"]).
  - apply (bool_decide_unpack _). reflexivity.
  - repeat constructor.
  - apply (bool_decide_unpack _). reflexivity.
Defined.

End MoreWorked.
